(** * NoorGuard WebSocket manager: connection registry and message routing

    Shallow embedding of [backend/app/websocket/manager.py]: the class
    [ConnectionManager] (two dictionaries owned by one object), its
    coroutines [connect], [send_personal_message], [send_to_user],
    [broadcast], the synchronous [disconnect], the two diagnostics getters
    and the per-connection read loop [handle_websocket_client].

    The coroutines talk to the outside world through four calls only:
    [websocket.accept()], [websocket.send_text(..)],
    [websocket.receive_text()] and [datetime.utcnow()].  They are modelled
    by an environment ([World]) that answers the n-th external call, and a
    small state-and-exception monad that threads the manager, the list of
    transmissions attempted so far and the number of external calls made.
    Each coroutine is run to completion before the next one starts (no
    interleaving at [await]).  The class [WebSocket] lets a socket through
    the handshake once ([accept()] raises on a socket that has left the
    connecting state): this fact about the environment is the predicate
    [accept_once] on worlds, assumed where a property needs it. *)

From stdpp Require Import gmap strings list fin_maps fin_sets.

Set Default Proof Using "Type".
Set Warnings "-register-all,-clear-no-such-hyp".

(** ** Values *)

(** A [WebSocket] object is identified by its identity (it is used as a
    dictionary key and as a set member through the default object hash). *)
Abbreviation WebSocket := nat (only parsing).

(** A [datetime] value, as returned by [datetime.utcnow()]. *)
Abbreviation datetime := Z (only parsing).

(** Python values that travel in messages.  [JIso t] is the string
    [t.isoformat()]; [JDict] is a dictionary literal or the object returned by
    [json.loads], as an association list read from the left. *)
Inductive json : Type :=
| JNone
| JBool (b : bool)
| JNum (z : Z)
| JStr (s : string)
| JIso (t : Z)
| JList (l : list json)
| JDict (d : list (string * json)).

Abbreviation message := (list (string * json)) (only parsing).

(** [d.get(key)] on a dictionary. *)
Fixpoint dict_get (key : string) (d : list (string * json)) : option json :=
  match d with
  | [] => None
  | (k, v) :: d' => if bool_decide (k = key) then Some v else dict_get key d'
  end.

(** [v == s] for the result [v] of [dict.get] and a string constant [s] that is
    not an ISO timestamp: only a [str] with the same characters is equal. *)
Definition eq_str (v : option json) (s : string) : bool :=
  match v with
  | Some (JStr s') => bool_decide (s' = s)
  | _ => false
  end.

(** The metadata dictionary stored per connection by [connect]. *)
Record conn_info : Type := ConnInfo {
  user_id : string;
  device_id : option string;
  connected_at : Z;
  client : string
}.

(** The object [self]: [active_connections] and [connection_info]. *)
Record ConnectionManager : Type := Manager {
  active_connections : gmap string (gset nat);
  connection_info : gmap nat conn_info
}.

(** [ConnectionManager.__init__]. *)
Definition init_manager : ConnectionManager :=
  {| active_connections := ∅; connection_info := ∅ |}.

(** The members of [active_connections[uid]], empty when [uid] is no key. *)
Definition conn_set (self : ConnectionManager) (uid : string) : gset nat :=
  default ∅ (active_connections self !! uid).

(** ** The outside world *)

(** What [await websocket.receive_text()] followed by [json.loads(data)]
    yields: a text frame together with the outcome of parsing it ([None] when
    [json.loads] raises), [WebSocketDisconnect], or any other exception. *)
Inductive frame : Type :=
| Text (loads : option json)
| Closed
| Broken.

(** The environment, asked at the [n]-th external call. *)
Record World : Type := {
  accept_raises : nat → nat → bool;
  send_raises : nat → nat → bool;
  receive : nat → nat → frame;
  utcnow_at : nat → Z;
  client_host : nat → option string
}.

(** One attempted transmission: [send_text] was called on [to] with the
    serialisation of [payload]; [delivered] is false when the call raised. *)
Record transmission : Type := Sent {
  to : nat;
  payload : list (string * json);
  delivered : bool
}.

(** The exceptions that [except Exception] catches: [WebSocketDisconnect] and
    any other exception of class [Exception].  What is no [Exception] (the
    cancellation of the task, [KeyboardInterrupt]) is outside the model. *)
Inductive exn : Type :=
| WebSocketDisconnect
| Exception.

Inductive result (A : Type) : Type :=
| Ok (a : A)
| Raise (e : exn).
Arguments Ok {A} a.
Arguments Raise {A} e.

Record State : Type := {
  mgr : ConnectionManager;
  wire : list transmission;
  clock : nat
}.

Definition init_state : State :=
  {| mgr := init_manager; wire := []; clock := 0 |}.

(** ** The monad of coroutines *)

Definition M (A : Type) : Type := World → State → result A * State.

Definition ret {A} (a : A) : M A := λ _ st, (Ok a, st).

Definition bind {A B} (c : M A) (k : A → M B) : M B :=
  λ w st, match c w st with
          | (Ok a, st') => k a w st'
          | (Raise e, st') => (Raise e, st')
          end.

Declare Scope py_scope.
Delimit Scope py_scope with py.
Notation "x <- c ;; k" := (bind c (λ x, k))
  (at level 100, c at next level, right associativity) : py_scope.
Notation "c ;;; k" := (bind c (λ _, k))
  (at level 100, right associativity) : py_scope.
Open Scope py_scope.

(** [try: body  except Exception: handler] (the exception value is not used
    by any handler of the module except to tell [WebSocketDisconnect]). *)
Definition try_except {A} (body : M A) (handler : exn → M A) : M A :=
  λ w st, match body w st with
          | (Ok a, st') => (Ok a, st')
          | (Raise e, st') => handler e w st'
          end.

(** [for x in xs: body x]. *)
Fixpoint for_each {A} (xs : list A) (body : A → M unit) : M unit :=
  match xs with
  | [] => ret tt
  | x :: xs' => body x ;;; for_each xs' body
  end.

(** A loop that updates one local variable. *)
Fixpoint for_fold {A B} (xs : list A) (acc : B) (body : A → B → M B) : M B :=
  match xs with
  | [] => ret acc
  | x :: xs' => acc' <- body x acc ;; for_fold xs' acc' body
  end.

Definition get_self : M ConnectionManager := λ _ st, (Ok (mgr st), st).

(** Run a synchronous update of [self]. *)
Definition modify (f : ConnectionManager → ConnectionManager) : M unit :=
  λ _ st, (Ok tt, {| mgr := f (mgr st); wire := wire st; clock := clock st |}).

Definition tick (st : State) : State :=
  {| mgr := mgr st; wire := wire st; clock := S (clock st) |}.

(** [await websocket.accept()]. *)
Definition accept (websocket : nat) : M unit :=
  λ w st, (if accept_raises w (clock st) websocket then Raise Exception else Ok tt,
           tick st).

(** [await websocket.send_text(json.dumps(message))]. *)
Definition send_text (websocket : nat) (msg : list (string * json)) : M unit :=
  λ w st,
    let failed := send_raises w (clock st) websocket in
    (if failed then Raise Exception else Ok tt,
     {| mgr := mgr st;
        wire := wire st ++ [Sent websocket msg (negb failed)];
        clock := S (clock st) |}).

(** [datetime.utcnow()]. *)
Definition utcnow : M Z :=
  λ w st, (Ok (utcnow_at w (clock st)), tick st).

(** [websocket.client.host if websocket.client else "unknown"]. *)
Definition client_of (websocket : nat) : M string :=
  λ w st, (Ok (default "unknown" (client_host w websocket)), st).

(** [json.loads(await websocket.receive_text())]. *)
Definition receive_json (websocket : nat) : M json :=
  λ w st,
    (match receive w (clock st) websocket with
     | Text (Some v) => Ok v
     | Text None => Raise Exception
     | Closed => Raise WebSocketDisconnect
     | Broken => Raise Exception
     end, tick st).

(** ** [ConnectionManager] *)

(** [send_personal_message]: a failed send is swallowed. *)
Definition send_personal_message (msg : list (string * json)) (websocket : nat)
  : M unit :=
  try_except (send_text websocket msg) (λ _, ret tt).

(** The acknowledgement built by [connect]. *)
Definition connection_message (uid : string) (t : Z) : list (string * json) :=
  [("type", JStr "connection"); ("status", JStr "connected");
   ("user_id", JStr uid); ("timestamp", JIso t)].

(** [if user_id not in self.active_connections:
       self.active_connections[user_id] = set()] *)
Definition ensure_user (uid : string) (self : ConnectionManager)
  : ConnectionManager :=
  match active_connections self !! uid with
  | Some _ => self
  | None => {| active_connections := <[uid := ∅]> (active_connections self);
               connection_info := connection_info self |}
  end.

(** [self.active_connections[user_id].add(websocket)] *)
Definition add_connection (websocket : nat) (uid : string)
  (self : ConnectionManager) : ConnectionManager :=
  {| active_connections :=
       alter (λ conns, {[websocket]} ∪ conns) uid (active_connections self);
     connection_info := connection_info self |}.

(** [self.connection_info[websocket] = {...}] *)
Definition set_info (websocket : nat) (i : conn_info)
  (self : ConnectionManager) : ConnectionManager :=
  {| active_connections := active_connections self;
     connection_info := <[websocket := i]> (connection_info self) |}.

Definition connect (websocket : nat) (uid : string) (dev : option string)
  : M unit :=
  accept websocket ;;;
  modify (ensure_user uid) ;;;
  modify (add_connection websocket uid) ;;;
  now <- utcnow ;;
  host <- client_of websocket ;;
  modify (set_info websocket
            {| user_id := uid; device_id := dev;
               connected_at := now; client := host |}) ;;;
  now' <- utcnow ;;
  send_personal_message (connection_message uid now') websocket.

(** [disconnect] is synchronous and touches nothing but [self]. *)
Definition disconnect (websocket : nat) (uid : string)
  (self : ConnectionManager) : ConnectionManager :=
  let self1 :=
    match active_connections self !! uid with
    | Some conns =>
        let conns' := conns ∖ {[websocket]} in
        if decide (conns' = ∅)
        then {| active_connections := delete uid (active_connections self);
                connection_info := connection_info self |}
        else {| active_connections := <[uid := conns']> (active_connections self);
                connection_info := connection_info self |}
    | None => self
    end in
  match connection_info self1 !! websocket with
  | Some _ => {| active_connections := active_connections self1;
                 connection_info := delete websocket (connection_info self1) |}
  | None => self1
  end.

(** The body of the first loop of [send_to_user]. *)
Definition try_send (msg : list (string * json)) (connection : nat)
  (disconnected : gset nat) : M (gset nat) :=
  try_except (send_text connection msg ;;; ret disconnected)
             (λ _, ret ({[connection]} ∪ disconnected)).

Definition send_to_user (uid : string) (msg : list (string * json)) : M unit :=
  self <- get_self ;;
  match active_connections self !! uid with
  | Some conns =>
      disconnected <- for_fold (elements conns) ∅ (try_send msg) ;;
      for_each (elements disconnected) (λ conn, modify (disconnect conn uid))
  | None => ret tt
  end.

Definition broadcast (msg : list (string * json))
  (exclude_users : option (list string)) : M unit :=
  let exclude_users := default [] exclude_users in
  self <- get_self ;;
  for_each (map_to_list (active_connections self))
    (λ '(uid, connections),
       if bool_decide (uid ∈ exclude_users) then ret tt
       else for_each (elements connections)
              (λ connection,
                 try_except (send_text connection msg) (λ _, ret tt))).

Definition get_connected_users (self : ConnectionManager) : list string :=
  (map_to_list (active_connections self)).*1.

Definition get_connection_count (self : ConnectionManager) : nat :=
  sum_list ((λ kv, size kv.2) <$> map_to_list (active_connections self)).

(** ** The read loop *)

Definition pong_message (t : Z) : list (string * json) :=
  [("type", JStr "pong"); ("timestamp", JIso t)].

Definition sync_response_message (t : Z) : list (string * json) :=
  [("type", JStr "sync_response"); ("data", JDict []); ("timestamp", JIso t)].

(** [message.get("type")]: an [AttributeError] when [message] is no [dict]. *)
Definition get_type (msg : json) : M (option json) :=
  match msg with
  | JDict d => ret (dict_get "type" d)
  | _ => λ _ st, (Raise Exception, st)
  end.

(** The [if/elif/else] of the loop body. *)
Definition dispatch (websocket : nat) (msg : json) : M unit :=
  ty <- get_type msg ;;
  if eq_str ty "ping" then
    now <- utcnow ;;
    send_personal_message (pong_message now) websocket
  else
    ty' <- get_type msg ;;
    if eq_str ty' "sync_request" then
      now <- utcnow ;;
      send_personal_message (sync_response_message now) websocket
    else ret tt.

(** One turn of [while True]. *)
Definition read_once (websocket : nat) : M unit :=
  msg <- receive_json websocket ;;
  dispatch websocket msg.

(** [turns] iterations of the loop.  The loop is left only by an exception: the
    result [Ok] says that the session is still in its loop after [turns]
    turns, not that the loop returned. *)
Fixpoint read_loop (turns : nat) (websocket : nat) : M unit :=
  match turns with
  | O => ret tt
  | S n => read_once websocket ;;; read_loop n websocket
  end.

(** [handle_websocket_client], observed for [turns] iterations of its loop.
    Both handlers deregister the connection (the [print] is not modelled). *)
Definition handle_websocket_client (turns : nat) (websocket : nat)
  (uid : string) (dev : option string) : M unit :=
  connect websocket uid dev ;;;
  try_except (read_loop turns websocket)
             (λ _, modify (disconnect websocket uid)).

(** ** Notification helpers *)

(** The dictionary built by [notify_parent_alert]; [data or {}] is the empty
    dictionary when no data is given. *)
Definition alert_message (child_id alert_type text : string)
  (data : option (list (string * json))) (t : Z) : list (string * json) :=
  [("type", JStr "alert"); ("alert_type", JStr alert_type);
   ("child_id", JStr child_id); ("message", JStr text);
   ("data", JDict (default [] data)); ("timestamp", JIso t)].

(** The argument dictionary is evaluated, clock included, before the call. *)
Definition notify_parent_alert (parent_id child_id alert_type text : string)
  (data : option (list (string * json))) : M unit :=
  now <- utcnow ;;
  send_to_user parent_id (alert_message child_id alert_type text data now).

Definition device_status_message (status : string) (t : Z)
  : list (string * json) :=
  [("type", JStr "device_status"); ("status", JStr status);
   ("timestamp", JIso t)].

Definition notify_device_status (device : string) (status : string) : M unit :=
  now <- utcnow ;;
  send_to_user device (device_status_message status now).

Definition prayer_time_message (prayer_times : list (string * json)) (t : Z)
  : list (string * json) :=
  [("type", JStr "prayer_time"); ("prayer_times", JDict prayer_times);
   ("timestamp", JIso t)].

Definition broadcast_prayer_time (prayer_times : list (string * json))
  : M unit :=
  now <- utcnow ;;
  broadcast (prayer_time_message prayer_times now) None.

(** ** The WebSocket routes of [main.py] *)

(** [/ws/{user_id}] *)
Definition websocket_endpoint (turns : nat) (websocket : nat) (uid : string)
  : M unit :=
  handle_websocket_client turns websocket uid None.

(** [/ws/{user_id}/device/{device_id}] *)
Definition websocket_device_endpoint (turns : nat) (websocket : nat)
  (uid : string) (device : string) : M unit :=
  handle_websocket_client turns websocket uid (Some device).

(** ** Sequences of calls on the shared manager *)

Inductive op : Type :=
| Connect (websocket : nat) (uid : string) (dev : option string)
| Disconnect (websocket : nat) (uid : string)
| SendToUser (uid : string) (msg : list (string * json))
| Broadcast (msg : list (string * json)) (exclude_users : option (list string)).

Definition call (o : op) : M unit :=
  match o with
  | Connect ws uid dev => connect ws uid dev
  | Disconnect ws uid => modify (disconnect ws uid)
  | SendToUser uid msg => send_to_user uid msg
  | Broadcast msg ex => broadcast msg ex
  end.

(** A caller that goes on after an exception: the state is what the call left. *)
Definition exec (w : World) (o : op) (st : State) : State := (call o w st).2.

Definition exec_all (w : World) (ops : list op) (st : State) : State :=
  foldl (λ st o, exec w o st) st ops.

(** ** The invariants of the data model *)

Definition nonempty_sets (self : ConnectionManager) : Prop :=
  ∀ uid conns, active_connections self !! uid = Some conns → conns ≠ ∅.

Definition registered (self : ConnectionManager) (websocket : nat) : Prop :=
  ∃ uid, websocket ∈ conn_set self uid.

Definition metadata_matches (self : ConnectionManager) : Prop :=
  ∀ websocket,
    registered self websocket ↔ is_Some (connection_info self !! websocket).

Definition one_owner (self : ConnectionManager) : Prop :=
  ∀ websocket uid1 uid2,
    websocket ∈ conn_set self uid1 → websocket ∈ conn_set self uid2 →
    uid1 = uid2.

(** [websocket] is in no set but possibly that of [uid]. *)
Definition not_elsewhere (websocket : nat) (uid : string)
  (self : ConnectionManager) : Prop :=
  map_Forall (λ uid' conns, websocket ∈ conns → uid' = uid)
             (active_connections self).

(** The calls that name a connection name it under [uid] only while no other
    user holds it. *)
Definition connect_guard (o : op) (self : ConnectionManager) : bool :=
  match o with
  | Connect ws uid _ => bool_decide (not_elsewhere ws uid self)
  | _ => true
  end.

Definition owner_guard (o : op) (self : ConnectionManager) : bool :=
  match o with
  | Connect ws uid _ | Disconnect ws uid =>
      bool_decide (not_elsewhere ws uid self)
  | _ => true
  end.

(** Every call of [ops], run from [st], passes [guard] in the state it meets. *)
Fixpoint respects (guard : op → ConnectionManager → bool) (w : World)
  (ops : list op) (st : State) : bool :=
  match ops with
  | [] => true
  | o :: ops' => guard o (mgr st) && respects guard w ops' (exec w o st)
  end.

(** A [disconnect] names a connection under [uid] only while no other user
    holds it. *)
Definition disconnect_guard (o : op) (self : ConnectionManager) : bool :=
  match o with
  | Disconnect ws uid => bool_decide (not_elsewhere ws uid self)
  | _ => true
  end.

(** [accept()] goes through at most once on each socket. *)
Definition accept_once (w : World) : Prop :=
  ∀ websocket n m,
    accept_raises w n websocket = false →
    accept_raises w m websocket = false → n = m.

(** Every registered connection went through the handshake at an earlier
    external call. *)
Definition accepted_before (w : World) (st : State) : Prop :=
  ∀ websocket uid,
    websocket ∈ conn_set (mgr st) uid →
    ∃ k, k < clock st ∧ accept_raises w k websocket = false.

(** A world that accepts socket [n] at the external call [4 * n] and at no
    other, and in which every send fails. *)
Definition orderly : World :=
  {| accept_raises := λ n websocket, negb (n =? 4 * websocket);
     send_raises := λ _ _, true;
     receive := λ _ _, Closed;
     utcnow_at := λ n, Z.of_nat n;
     client_host := λ _, None |}.

(** A world in which nothing fails and no frame arrives. *)
Definition calm : World :=
  {| accept_raises := λ _ _, false;
     send_raises := λ _ _, false;
     receive := λ _ _, Closed;
     utcnow_at := λ n, Z.of_nat n;
     client_host := λ _, None |}.

(** A world in which every send fails. *)
Definition deaf : World :=
  {| accept_raises := λ _ _, false;
     send_raises := λ _ _, true;
     receive := λ _ _, Closed;
     utcnow_at := λ n, Z.of_nat n;
     client_host := λ _, Some "10.0.0.7" |}.

(** ** Closed forms of the loops, used to state what a call does *)

(** [for conn in l: self.disconnect(conn, uid)] as an update of [self]. *)
Definition prune (uid : string) (l : list nat) (self : ConnectionManager)
  : ConnectionManager :=
  foldl (λ s conn, disconnect conn uid s) self l.

(** The transmissions made by sending [msg] to the connections of [l] in turn,
    the first one being the [n]-th external call. *)
Fixpoint attempts (w : World) (msg : list (string * json)) (n : nat)
  (l : list nat) : list transmission :=
  match l with
  | [] => []
  | c :: l' => Sent c msg (negb (send_raises w n c)) :: attempts w msg (S n) l'
  end.

(** The connections on which some transmission of [ts] failed. *)
Definition failed_of (ts : list transmission) : gset nat :=
  list_to_set (to <$> filter (λ t, delivered t = false) ts).

(** The transmissions of [broadcast] over the items [kvs] of the dictionary. *)
Fixpoint broadcast_attempts (w : World) (msg : list (string * json))
  (exclude_users : list string) (n : nat) (kvs : list (string * gset nat))
  : list transmission :=
  match kvs with
  | [] => []
  | (uid, connections) :: kvs' =>
      if bool_decide (uid ∈ exclude_users)
      then broadcast_attempts w msg exclude_users n kvs'
      else attempts w msg n (elements connections)
           ++ broadcast_attempts w msg exclude_users (n + size connections) kvs'
  end.

(** The connections [broadcast] is to reach, in the order it visits them. *)
Definition broadcast_targets (exclude_users : list string)
  (self : ConnectionManager) : list nat :=
  mjoin ((λ kv, elements kv.2)
           <$> filter (λ kv, kv.1 ∉ exclude_users)
                 (map_to_list (active_connections self))).

(** The update of [self] made by [connect] once the handshake went through. *)
Definition register (websocket : nat) (i : conn_info) (self : ConnectionManager)
  : ConnectionManager :=
  set_info websocket i (add_connection websocket (user_id i)
                          (ensure_user (user_id i) self)).

(** The size of a dictionary of sets, as [get_connection_count] sums it. *)
Definition total_size (m : gmap string (gset nat)) : nat :=
  sum_list ((λ kv, size kv.2) <$> map_to_list m).

(** What [turns] turns of the read loop on [websocket] come to when the first
    external call is the [clk]-th: how the loop ends, the replies it sends and
    the number of external calls made. *)
Fixpoint loop_outcome (w : World) (websocket : nat) (turns clk : nat)
  : result unit * list transmission * nat :=
  match turns with
  | O => (Ok tt, [], clk)
  | S n =>
      match receive w clk websocket with
      | Text (Some (JDict d)) =>
          if eq_str (dict_get "type" d) "ping" then
            let '(r, ts, clk') := loop_outcome w websocket n (3 + clk) in
            (r, Sent websocket (pong_message (utcnow_at w (1 + clk)))
                  (negb (send_raises w (2 + clk) websocket)) :: ts, clk')
          else if eq_str (dict_get "type" d) "sync_request" then
            let '(r, ts, clk') := loop_outcome w websocket n (3 + clk) in
            (r, Sent websocket (sync_response_message (utcnow_at w (1 + clk)))
                  (negb (send_raises w (2 + clk) websocket)) :: ts, clk')
          else loop_outcome w websocket n (1 + clk)
      | Closed => (Raise WebSocketDisconnect, [], 1 + clk)
      | _ => (Raise Exception, [], 1 + clk)
      end
  end.

(** The acknowledgement and the metadata of a session that starts in [st]. *)
Definition session_ack (w : World) (st : State) (websocket : nat)
  (uid : string) : transmission :=
  Sent websocket (connection_message uid (utcnow_at w (2 + clock st)))
       (negb (send_raises w (3 + clock st) websocket)).

Definition session_info (w : World) (st : State) (websocket : nat)
  (uid : string) (dev : option string) : conn_info :=
  {| user_id := uid; device_id := dev;
     connected_at := utcnow_at w (1 + clock st);
     client := default "unknown" (client_host w websocket) |}.

(** A connection that is new to the manager. *)
Definition fresh (websocket : nat) (uid : string) (self : ConnectionManager)
  : Prop :=
  websocket ∉ conn_set self uid
  ∧ connection_info self !! websocket = None
  ∧ active_connections self !! uid ≠ Some ∅.

(** ** Sample worlds and states *)

(** A world that delivers a ping frame whenever asked. *)
Definition pinging : World :=
  {| accept_raises := λ _ _, false;
     send_raises := λ _ _, false;
     receive := λ _ _, Text (Some (JDict [("type", JStr "ping")]));
     utcnow_at := λ n, Z.of_nat n;
     client_host := λ _, None |}.

(** A world in which no handshake goes through. *)
Definition closed_door : World :=
  {| accept_raises := λ _ _, true;
     send_raises := λ _ _, false;
     receive := λ _ _, Closed;
     utcnow_at := λ n, Z.of_nat n;
     client_host := λ _, None |}.

(** A world whose client sends JSON lists. *)
Definition listing : World :=
  {| accept_raises := λ _ _, false;
     send_raises := λ _ _, false;
     receive := λ _ _, Text (Some (JList [JNum 1]));
     utcnow_at := λ n, Z.of_nat n;
     client_host := λ _, None |}.

(** Settle a closed decidable goal by evaluating its decision procedure. *)
Ltac by_evaluation :=
  match goal with
  | |- ?P => apply (bool_decide_unpack P); vm_compute; exact I
  end.

(** A state in which connection 1 is registered under "u1". *)
Definition one_client : State := exec calm (Connect 1 "u1" None) init_state.

(** A state with two users: connections 1 and 2 under "u1", 3 under "u2". *)
Definition three_clients : State :=
  exec_all calm [Connect 1 "u1" None; Connect 2 "u1" None;
                 Connect 3 "u2" (Some "tablet")] init_state.

(** * Properties *)

(** ** [disconnect] *)

Section disconnect_facts.
Context (websocket : nat) (uid : string) (self : ConnectionManager).

Lemma disconnect_info :
  connection_info (disconnect websocket uid self)
  = delete websocket (connection_info self).
Proof.
  unfold disconnect.
  destruct (active_connections self !! uid) as [conns|]; simpl;
    [destruct (decide (conns ∖ {[websocket]} = ∅)); simpl|];
    (destruct (connection_info self !! websocket) eqn:E; simpl;
     [done | by rewrite delete_id]).
Qed.

Lemma disconnect_active :
  active_connections (disconnect websocket uid self)
  = match active_connections self !! uid with
    | Some conns =>
        if decide (conns ∖ {[websocket]} = ∅)
        then delete uid (active_connections self)
        else <[uid := conns ∖ {[websocket]}]> (active_connections self)
    | None => active_connections self
    end.
Proof.
  unfold disconnect.
  destruct (active_connections self !! uid) as [conns|]; simpl;
    [destruct (decide (conns ∖ {[websocket]} = ∅)); simpl|];
    by destruct (connection_info self !! websocket).
Qed.

Lemma disconnect_active_ne uid' :
  uid' ≠ uid →
  active_connections (disconnect websocket uid self) !! uid'
  = active_connections self !! uid'.
Proof.
  intros Hne. rewrite disconnect_active.
  destruct (active_connections self !! uid) as [conns|]; [|done].
  destruct (decide (conns ∖ {[websocket]} = ∅)).
  - by rewrite lookup_delete_ne.
  - by rewrite lookup_insert_ne.
Qed.

Lemma disconnect_conn_set uid' :
  conn_set (disconnect websocket uid self) uid'
  = if decide (uid' = uid) then conn_set self uid ∖ {[websocket]}
    else conn_set self uid'.
Proof.
  unfold conn_set. destruct (decide (uid' = uid)) as [->|Hne].
  - rewrite disconnect_active.
    destruct (active_connections self !! uid) as [conns|] eqn:E; simpl.
    + destruct (decide (conns ∖ {[websocket]} = ∅)) as [Hemp|].
      * by rewrite lookup_delete_eq, Hemp.
      * by rewrite lookup_insert_eq.
    + rewrite E. simpl. set_solver.
  - by rewrite disconnect_active_ne.
Qed.

(** The key is deleted as soon as its set is empty. *)
Lemma disconnect_no_empty_key :
  active_connections (disconnect websocket uid self) !! uid ≠ Some ∅.
Proof.
  rewrite disconnect_active.
  destruct (active_connections self !! uid) as [conns|] eqn:E.
  - destruct (decide (conns ∖ {[websocket]} = ∅)).
    + by rewrite lookup_delete_eq.
    + rewrite lookup_insert_eq. congruence.
  - by rewrite E.
Qed.

Lemma disconnect_nonempty_sets :
  nonempty_sets self → nonempty_sets (disconnect websocket uid self).
Proof.
  intros Hinv uid' conns Hlk. destruct (decide (uid' = uid)) as [->|Hne].
  - intros ->. by apply disconnect_no_empty_key.
  - rewrite disconnect_active_ne in Hlk; [by eapply Hinv | done].
Qed.
End disconnect_facts.

(** ** The cleanup loop of [send_to_user] *)

Lemma prune_run uid l w st :
  for_each l (λ conn, modify (disconnect conn uid)) w st
  = (Ok tt, {| mgr := prune uid l (mgr st); wire := wire st; clock := clock st |}).
Proof.
  revert st. induction l as [|c l IH]; intros st.
  - by destruct st.
  - cbn [for_each]. unfold bind at 1. cbn [modify]. by rewrite IH.
Qed.

Lemma prune_conn_set uid l self uid' :
  conn_set (prune uid l self) uid'
  = if decide (uid' = uid) then conn_set self uid ∖ list_to_set l
    else conn_set self uid'.
Proof.
  revert self. induction l as [|c l IH]; intros self; cbn [prune foldl].
  - case_decide; [subst; set_solver | done].
  - fold (prune uid l (disconnect c uid self)). rewrite IH.
    rewrite !disconnect_conn_set.
    repeat case_decide; try done; set_solver.
Qed.

Lemma prune_active_ne uid l self uid' :
  uid' ≠ uid →
  active_connections (prune uid l self) !! uid' = active_connections self !! uid'.
Proof.
  intros Hne. revert self. induction l as [|c l IH]; intros self; [done|].
  cbn [prune foldl]. fold (prune uid l (disconnect c uid self)).
  rewrite IH. by apply disconnect_active_ne.
Qed.

Lemma prune_info uid l self c :
  connection_info (prune uid l self) !! c
  = if decide (c ∈ l) then None else connection_info self !! c.
Proof.
  revert self. induction l as [|d l IH]; intros self; cbn [prune foldl].
  - case_decide; [set_solver | done].
  - fold (prune uid l (disconnect d uid self)). rewrite IH, disconnect_info.
    destruct (decide (c = d)) as [->|Hne].
    + rewrite lookup_delete_eq. repeat case_decide; try done; set_solver.
    + rewrite lookup_delete_ne by done.
      repeat case_decide; try done; set_solver.
Qed.

Lemma prune_no_empty_key uid l self :
  l ≠ [] → active_connections (prune uid l self) !! uid ≠ Some ∅.
Proof.
  revert self. induction l as [|c l IH]; intros self Hl; [done|].
  cbn [prune foldl]. fold (prune uid l (disconnect c uid self)).
  destruct l as [|d l]; [apply disconnect_no_empty_key | by apply IH].
Qed.

Lemma prune_nonempty_sets uid l self :
  nonempty_sets self → nonempty_sets (prune uid l self).
Proof.
  revert self. induction l as [|c l IH]; intros self Hinv; [done|].
  cbn [prune foldl]. apply IH. by apply disconnect_nonempty_sets.
Qed.

(** ** The sending loops *)

Lemma attempts_to w msg n l : to <$> attempts w msg n l = l.
Proof. revert n. induction l as [|c l IH]; intros n; cbn; [done | by rewrite IH]. Qed.

Lemma attempts_length w msg n l : length (attempts w msg n l) = length l.
Proof. by rewrite <-(length_fmap to), attempts_to. Qed.

Lemma attempts_payload w msg n l :
  Forall (λ t, payload t = msg) (attempts w msg n l).
Proof. revert n. induction l as [|c l IH]; intros n; cbn; constructor; auto. Qed.

Lemma failed_of_subseteq w msg n l : failed_of (attempts w msg n l) ⊆ list_to_set l.
Proof.
  unfold failed_of. intros c. rewrite !elem_of_list_to_set.
  rewrite list_elem_of_fmap. intros (t & -> & Ht).
  apply list_elem_of_filter in Ht as [_ Ht].
  rewrite <-(attempts_to w msg n l). by apply list_elem_of_fmap_2.
Qed.

Lemma failed_of_all w msg n l :
  Forall (λ t, delivered t = false) (attempts w msg n l) →
  failed_of (attempts w msg n l) = list_to_set l.
Proof.
  intros Hall. unfold failed_of.
  replace (filter (λ t, delivered t = false) (attempts w msg n l))
    with (attempts w msg n l); [by rewrite attempts_to|].
  induction Hall as [|t ts Ht _ IH]; [done|].
  by rewrite filter_cons_True, <-IH.
Qed.

Lemma failed_of_cons c msg ok ts :
  failed_of (Sent c msg ok :: ts)
  = if ok then failed_of ts else {[c]} ∪ failed_of ts.
Proof.
  unfold failed_of. destruct ok.
  - by rewrite filter_cons_False.
  - by rewrite filter_cons_True.
Qed.

Lemma send_loop_run msg w l acc st :
  for_fold l acc (try_send msg) w st
  = (Ok (failed_of (attempts w msg (clock st) l) ∪ acc),
     {| mgr := mgr st;
        wire := wire st ++ attempts w msg (clock st) l;
        clock := clock st + length l |}).
Proof.
  revert acc st. induction l as [|c l IH]; intros acc st.
  - cbn. unfold ret, failed_of. cbn.
    rewrite app_nil_r, Nat.add_0_r, (left_id_L ∅ (∪)). by destruct st.
  - cbn [for_fold attempts]. rewrite failed_of_cons.
    unfold bind at 1, try_send at 1, try_except, bind, send_text.
    destruct (send_raises w (clock st) c) eqn:E; cbn [negb ret];
      rewrite IH; cbn [mgr wire clock];
      rewrite <-app_assoc; cbn [app];
      replace (clock st + length (c :: l)) with (S (clock st) + length l)
        by (cbn [length]; lia);
      first [done | do 2 f_equal; set_solver].
Qed.

Lemma quiet_loop_run msg w l st :
  for_each l (λ connection, try_except (send_text connection msg) (λ _, ret tt))
    w st
  = (Ok tt,
     {| mgr := mgr st;
        wire := wire st ++ attempts w msg (clock st) l;
        clock := clock st + length l |}).
Proof.
  revert st. induction l as [|c l IH]; intros st.
  - cbn. unfold ret. rewrite app_nil_r, Nat.add_0_r. by destruct st.
  - cbn [for_each]. unfold bind at 1, try_except, send_text.
    destruct (send_raises w (clock st) c) eqn:E; cbn;
      rewrite IH; cbn [mgr wire clock attempts negb]; rewrite E;
      rewrite <-app_assoc; cbn [app negb length];
      by rewrite Nat.add_succ_r.
Qed.

(** ** What one call of each coroutine does *)

Lemma send_to_user_run uid msg w st conns :
  active_connections (mgr st) !! uid = Some conns →
  send_to_user uid msg w st
  = (Ok tt,
     {| mgr := prune uid
                 (elements (failed_of (attempts w msg (clock st) (elements conns))))
                 (mgr st);
        wire := wire st ++ attempts w msg (clock st) (elements conns);
        clock := clock st + size conns |}).
Proof.
  intros Hlk. unfold send_to_user, bind at 1, get_self. rewrite Hlk.
  unfold bind. rewrite send_loop_run, prune_run. cbn [mgr wire clock].
  by rewrite (right_id_L ∅ (∪)).
Qed.

Lemma send_to_user_offline uid msg w st :
  active_connections (mgr st) !! uid = None →
  send_to_user uid msg w st = (Ok tt, st).
Proof.
  intros Hlk. unfold send_to_user, bind, get_self. by rewrite Hlk.
Qed.

Lemma broadcast_loop_run msg ex w kvs st :
  for_each kvs
    (λ '(uid, connections),
       if bool_decide (uid ∈ ex) then ret tt
       else for_each (elements connections)
              (λ connection,
                 try_except (send_text connection msg) (λ _, ret tt)))
    w st
  = (Ok tt,
     {| mgr := mgr st;
        wire := wire st ++ broadcast_attempts w msg ex (clock st) kvs;
        clock := clock st + length (broadcast_attempts w msg ex (clock st) kvs) |}).
Proof.
  revert st. induction kvs as [|[uid conns] kvs IH]; intros st.
  - cbn. unfold ret. rewrite app_nil_r, Nat.add_0_r. by destruct st.
  - cbn [for_each broadcast_attempts]. unfold bind at 1.
    destruct (bool_decide (uid ∈ ex)).
    + unfold ret at 1. by rewrite IH.
    + rewrite quiet_loop_run, IH. cbn [mgr wire clock].
      rewrite length_app, attempts_length, <-app_assoc, Nat.add_assoc.
      done.
Qed.

Lemma broadcast_run msg ex w st :
  broadcast msg ex w st
  = (Ok tt,
     let new := broadcast_attempts w msg (default [] ex) (clock st)
                  (map_to_list (active_connections (mgr st))) in
     {| mgr := mgr st; wire := wire st ++ new; clock := clock st + length new |}).
Proof.
  unfold broadcast, bind, get_self. by rewrite broadcast_loop_run.
Qed.

Lemma broadcast_attempts_to w msg ex n kvs :
  to <$> broadcast_attempts w msg ex n kvs
  = mjoin ((λ kv, elements kv.2) <$> filter (λ kv, kv.1 ∉ ex) kvs).
Proof.
  revert n. induction kvs as [|[uid conns] kvs IH]; intros n; [done|].
  cbn [broadcast_attempts]. case_bool_decide as Hex.
  - rewrite filter_cons_False by (cbn; tauto). apply IH.
  - rewrite filter_cons_True by done. cbn [fmap list_fmap mjoin list_join].
    by rewrite fmap_app, attempts_to, IH.
Qed.

Lemma broadcast_attempts_payload w msg ex n kvs :
  Forall (λ t, payload t = msg) (broadcast_attempts w msg ex n kvs).
Proof.
  revert n. induction kvs as [|[uid conns] kvs IH]; intros n; [constructor|].
  cbn [broadcast_attempts]. case_bool_decide; [apply IH|].
  apply Forall_app. split; [apply attempts_payload | apply IH].
Qed.

Lemma elem_of_broadcast_targets ex self c :
  c ∈ broadcast_targets ex self ↔
  ∃ uid conns, active_connections self !! uid = Some conns ∧
               (uid ∉ ex) ∧ c ∈ conns.
Proof.
  unfold broadcast_targets. rewrite list_elem_of_join. split.
  - intros (l & Hc & Hl). apply list_elem_of_fmap in Hl as ([uid conns] & -> & Hkv).
    apply list_elem_of_filter in Hkv as [Hex Hkv].
    apply elem_of_map_to_list in Hkv. apply elem_of_elements in Hc.
    by exists uid, conns.
  - intros (uid & conns & Hlk & Hex & Hc). exists (elements conns). split.
    + by apply elem_of_elements.
    + apply (list_elem_of_fmap_2 (λ kv, elements kv.2) _ (uid, conns)).
      apply list_elem_of_filter. split; [done|]. by apply elem_of_map_to_list.
Qed.

Lemma connect_run websocket uid dev w st :
  connect websocket uid dev w st
  = if accept_raises w (clock st) websocket
    then (Raise Exception, tick st)
    else (Ok tt,
          {| mgr := register websocket
                      {| user_id := uid; device_id := dev;
                         connected_at := utcnow_at w (1 + clock st);
                         client := default "unknown" (client_host w websocket) |}
                      (mgr st);
             wire := wire st ++
                     [Sent websocket
                        (connection_message uid (utcnow_at w (2 + clock st)))
                        (negb (send_raises w (3 + clock st) websocket))];
             clock := 4 + clock st |}).
Proof.
  unfold connect, bind at 1, accept.
  destruct (accept_raises w (clock st) websocket); [done|].
  unfold bind, modify, utcnow, client_of, send_personal_message, try_except,
    send_text, tick, ret, register.
  cbn. by destruct (send_raises w (S (S (S (clock st)))) websocket).
Qed.

Lemma register_active websocket i self :
  active_connections (register websocket i self)
  = <[user_id i := {[websocket]} ∪ conn_set self (user_id i)]>
      (active_connections self).
Proof.
  unfold register, set_info, add_connection, ensure_user, conn_set. cbn.
  destruct (active_connections self !! user_id i) as [conns|] eqn:E; cbn.
  - apply map_eq. intros uid'. destruct (decide (uid' = user_id i)) as [->|].
    + rewrite lookup_alter_eq, lookup_insert_eq, E. done.
    + by rewrite lookup_alter_ne, lookup_insert_ne.
  - by rewrite alter_insert_eq.
Qed.

Lemma register_info websocket i self :
  connection_info (register websocket i self)
  = <[websocket := i]> (connection_info self).
Proof.
  unfold register, ensure_user.
  by destruct (active_connections self !! user_id i).
Qed.

Lemma register_conn_set websocket i self uid' :
  conn_set (register websocket i self) uid'
  = if decide (uid' = user_id i) then {[websocket]} ∪ conn_set self (user_id i)
    else conn_set self uid'.
Proof.
  unfold conn_set at 1. rewrite register_active. case_decide as Hu.
  - subst. by rewrite lookup_insert_eq.
  - by rewrite lookup_insert_ne.
Qed.

Lemma elem_of_failed_of ts c :
  c ∈ failed_of ts ↔ ∃ t, t ∈ ts ∧ to t = c ∧ delivered t = false.
Proof.
  unfold failed_of. rewrite elem_of_list_to_set, list_elem_of_fmap. split.
  - intros (t & -> & Ht). apply list_elem_of_filter in Ht as [Hd Ht]. eauto.
  - intros (t & Ht & <- & Hd). exists t. split; [done|].
    by apply list_elem_of_filter.
Qed.

Lemma elem_of_get_connected_users self uid :
  uid ∈ get_connected_users self ↔ is_Some (active_connections self !! uid).
Proof.
  unfold get_connected_users. rewrite list_elem_of_fmap. split.
  - intros ([u conns] & -> & Hkv). apply elem_of_map_to_list in Hkv. eauto.
  - intros [conns Hlk]. exists (uid, conns). split; [done|].
    by apply elem_of_map_to_list.
Qed.

(** ** The scenarios of the specification, run *)

Example two_connections_one_user :
  get_connection_count
    (mgr (exec_all calm [Connect 1 "u1" None; Connect 2 "u1" None] init_state))
  = 2.
Proof. vm_compute. reflexivity. Qed.

Example connect_then_disconnect :
  get_connected_users
    (mgr (exec_all calm [Connect 1 "u1" None; Disconnect 1 "u1"] init_state))
  = [].
Proof. vm_compute. reflexivity. Qed.

Example alert_reaches_parent :
  let alert := [("type", JStr "alert"); ("alert_type", JStr "bedtime");
                ("child_id", JStr "c1");
                ("message", JStr "Screen time exceeded")] in
  let st := exec calm (Connect 1 "parent-1" None) init_state in
  wire (exec calm (SendToUser "parent-1" alert) st)
  = wire st ++ [Sent 1 alert true].
Proof. vm_compute. reflexivity. Qed.

Example broadcast_skips_excluded :
  to <$> wire (broadcast [] (Some ["u1"]) calm
                 {| mgr := mgr three_clients; wire := []; clock := 0 |}).2
  = [3].
Proof. vm_compute. reflexivity. Qed.

Example failed_peer_is_pruned :
  get_connected_users (mgr (exec deaf (SendToUser "u1" []) three_clients))
  = ["u2"].
Proof. vm_compute. reflexivity. Qed.

(** A client that closes after one ping: it is acknowledged, answered, and
    deregistered by the handler. *)
Example session_ping_then_close :
  let w := {| accept_raises := λ _ _, false;
              send_raises := λ _ _, false;
              receive := λ n _, if decide (n = 4)
                                then Text (Some (JDict [("type", JStr "ping")]))
                                else Closed;
              utcnow_at := λ n, Z.of_nat n;
              client_host := λ _, Some "10.0.0.7" |} in
  let st := (handle_websocket_client 5 1 "u1" None w init_state).2 in
  mgr st = init_manager
  ∧ wire st = [Sent 1 (connection_message "u1" 2) true;
               Sent 1 (pong_message 5) true].
Proof. vm_compute. split; reflexivity. Qed.

(** A frame that is valid JSON but no object ends the session. *)
Example session_non_object_frame :
  let w := {| accept_raises := λ _ _, false;
              send_raises := λ _ _, false;
              receive := λ _ _, Text (Some (JList []));
              utcnow_at := λ n, Z.of_nat n;
              client_host := λ _, None |} in
  let st := (handle_websocket_client 3 1 "u1" None w init_state).2 in
  mgr st = init_manager ∧ length (wire st) = 1.
Proof. vm_compute. split; reflexivity. Qed.

(** ** Claims about [send_to_user] *)

(** C1. For every state and every user [uid] registered with the set [conns],
    [send_to_user uid msg] returns normally after calling [send_text] with
    [msg] once on each connection of [conns] (the transmissions [new], in the
    order of iteration, their outcome given by the world); the manager it
    leaves is the one obtained by calling [disconnect(conn, uid)], after that
    loop, for each connection whose send failed; every such connection is then
    out of [uid]'s set and has no metadata entry, the others stay; and when
    the set is not empty and every send failed, [uid] is not listed by
    [get_connected_users]. *)
Theorem send_to_user_prunes_failed (w : World) (st : State) (uid : string)
    (msg : list (string * json)) (conns : gset nat) :
  active_connections (mgr st) !! uid = Some conns →
  let new := attempts w msg (clock st) (elements conns) in
  let st' := (send_to_user uid msg w st).2 in
  (send_to_user uid msg w st).1 = Ok tt
  ∧ wire st' = wire st ++ new
  ∧ to <$> new = elements conns
  ∧ Forall (λ t, payload t = msg) new
  ∧ mgr st' = prune uid (elements (failed_of new)) (mgr st)
  ∧ (∀ t, t ∈ new → delivered t = false →
       (to t ∉ conn_set (mgr st') uid)
       ∧ connection_info (mgr st') !! to t = None)
  ∧ (∀ c, c ∈ conns → c ∉ failed_of new → c ∈ conn_set (mgr st') uid)
  ∧ (conns ≠ ∅ → Forall (λ t, delivered t = false) new →
       uid ∉ get_connected_users (mgr st')).
Proof.
  intros Hlk new st'. subst st'. rewrite (send_to_user_run _ _ _ _ _ Hlk).
  fold new. cbn [fst snd mgr wire].
  assert (Hset : conn_set (mgr st) uid = conns) by (unfold conn_set; by rewrite Hlk).
  split_and!; try done.
  - apply attempts_to.
  - apply attempts_payload.
  - intros t Ht Hd.
    assert (Hin : to t ∈ elements (failed_of new))
      by (apply elem_of_elements, elem_of_failed_of; eauto).
    split.
    + rewrite prune_conn_set. rewrite decide_True by done.
      rewrite elem_of_difference, elem_of_list_to_set. tauto.
    + rewrite prune_info. by rewrite decide_True.
  - intros c Hc Hok. rewrite prune_conn_set, decide_True by done.
    rewrite Hset, elem_of_difference, elem_of_list_to_set, elem_of_elements.
    done.
  - intros Hne Hall. rewrite elem_of_get_connected_users.
    pose proof (failed_of_all _ _ _ _ Hall) as Hfail. fold new in Hfail.
    assert (Hl : elements (failed_of new) ≠ []).
    { rewrite Hfail. intros Hnil. apply Hne. apply elements_empty_inv in Hnil.
      apply leibniz_equiv in Hnil. set_solver. }
    pose proof (prune_no_empty_key uid _ (mgr st) Hl) as Hkey.
    pose proof (prune_conn_set uid (elements (failed_of new)) (mgr st) uid) as Hcs.
    rewrite decide_True in Hcs by done. unfold conn_set at 1 in Hcs.
    intros [conns' Hlk']. rewrite Hlk' in Hcs, Hkey. cbn in Hcs.
    apply Hkey. f_equal. rewrite Hcs, Hset, Hfail. set_solver.
Qed.

Lemma send_to_user_prunes_failed_witness :
  "u1" ∉ get_connected_users (mgr (send_to_user "u1" [] deaf one_client).2).
Proof.
  assert (Hlk : active_connections (mgr one_client) !! "u1" = Some {[1]})
    by (vm_compute; reflexivity).
  destruct (send_to_user_prunes_failed deaf one_client "u1" [] {[1]} Hlk)
    as (_ & _ & _ & _ & _ & _ & _ & Hgone).
  apply Hgone.
  - set_solver.
  - vm_compute. by repeat constructor.
Defined.

(** C7. When [uid] is no key of [active_connections], [send_to_user uid msg]
    returns normally and leaves the whole state as it was: both dictionaries
    of the manager unchanged and no transmission attempted. *)
Theorem send_to_user_unknown_user (w : World) (st : State) (uid : string)
    (msg : list (string * json)) :
  active_connections (mgr st) !! uid = None →
  (send_to_user uid msg w st).1 = Ok tt
  ∧ wire (send_to_user uid msg w st).2 = wire st
  ∧ mgr (send_to_user uid msg w st).2 = mgr st
  ∧ (send_to_user uid msg w st).2 = st.
Proof.
  intros Hlk. by rewrite send_to_user_offline.
Qed.

Lemma send_to_user_unknown_user_witness :
  (send_to_user "u9" [("type", JStr "alert")] deaf three_clients).2
  = three_clients.
Proof.
  apply (send_to_user_unknown_user deaf three_clients "u9").
  vm_compute. reflexivity.
Defined.

(** ** Claims about [broadcast] *)

(** C6. For every state and every [exclude_users], [broadcast] returns
    normally whatever sends fail, and the transmissions it makes are one per
    connection of each registered user that is not excluded, all carrying
    [msg]: a connection is sent to exactly when it is in the set of a user
    outside [exclude_users]. *)
Theorem broadcast_reaches_all_but_excluded (w : World) (st : State)
    (msg : list (string * json)) (exclude_users : option (list string)) :
  let ex := default [] exclude_users in
  let st' := (broadcast msg exclude_users w st).2 in
  (broadcast msg exclude_users w st).1 = Ok tt
  ∧ ∃ new,
      wire st' = wire st ++ new
      ∧ Forall (λ t, payload t = msg) new
      ∧ to <$> new = broadcast_targets ex (mgr st)
      ∧ ∀ c, c ∈ (to <$> new) ↔
             ∃ uid conns, active_connections (mgr st) !! uid = Some conns
                          ∧ (uid ∉ ex) ∧ c ∈ conns.
Proof.
  intros ex st'. subst st'. rewrite broadcast_run. cbn [fst snd wire].
  split; [done|]. eexists. split; [done|]. split_and!.
  - apply broadcast_attempts_payload.
  - apply broadcast_attempts_to.
  - intros c. rewrite broadcast_attempts_to. apply elem_of_broadcast_targets.
Qed.

(** C10. [broadcast] never changes the manager: whatever the message, the
    exclusions and the sends that fail, both dictionaries are afterwards what
    they were before. *)
Theorem broadcast_keeps_manager (w : World) (st : State)
    (msg : list (string * json)) (exclude_users : option (list string)) :
  mgr (broadcast msg exclude_users w st).2 = mgr st
  ∧ active_connections (mgr (broadcast msg exclude_users w st).2)
    = active_connections (mgr st)
  ∧ connection_info (mgr (broadcast msg exclude_users w st).2)
    = connection_info (mgr st).
Proof. by rewrite broadcast_run. Qed.

(** ** Claims about [connect] and [disconnect] *)

(** C8. Once the handshake [websocket.accept()] has gone through, for every
    connection, user and optional device, [connect] returns normally, also
    when the user has other connections; it puts the connection in the user's
    set (a set that holds just it when the user had no key) and leaves the
    other users alone, stores the metadata entry made of the user, the device,
    the time read and the peer address (or "unknown"), and makes one
    transmission, to that connection: the message of type "connection" with
    status "connected", the user and a timestamp. *)
Theorem connect_registers_and_acknowledges (w : World) (st : State)
    (websocket : nat) (uid : string) (dev : option string) :
  accept_raises w (clock st) websocket = false →
  let st' := (connect websocket uid dev w st).2 in
  (connect websocket uid dev w st).1 = Ok tt
  ∧ active_connections (mgr st')
    = <[uid := {[websocket]} ∪ conn_set (mgr st) uid]>
        (active_connections (mgr st))
  ∧ connection_info (mgr st')
    = <[websocket := {| user_id := uid; device_id := dev;
                        connected_at := utcnow_at w (1 + clock st);
                        client := default "unknown" (client_host w websocket) |}]>
        (connection_info (mgr st))
  ∧ ∃ ack,
      wire st' = wire st ++ [ack]
      ∧ to ack = websocket
      ∧ payload ack = connection_message uid (utcnow_at w (2 + clock st))
      ∧ dict_get "type" (payload ack) = Some (JStr "connection")
      ∧ dict_get "user_id" (payload ack) = Some (JStr uid)
      ∧ dict_get "timestamp" (payload ack)
        = Some (JIso (utcnow_at w (2 + clock st))).
Proof.
  intros Hacc st'. subst st'. rewrite connect_run, Hacc. cbn [fst snd mgr wire].
  split_and!; [done | by rewrite register_active | by rewrite register_info |].
  eexists. split; [done|]. cbn [to payload]. by split_and!.
Qed.

Lemma connect_registers_and_acknowledges_witness :
  conn_set (mgr (connect 4 "u1" (Some "phone") calm three_clients).2) "u1"
  = {[1; 2; 4]}.
Proof.
  destruct (connect_registers_and_acknowledges calm three_clients 4 "u1"
              (Some "phone") eq_refl) as (_ & Hact & _).
  unfold conn_set. rewrite Hact, lookup_insert_eq.
  vm_compute. reflexivity.
Defined.

(** C5, as the code has it.  [disconnect] is idempotent: a second call with
    the same arguments changes nothing, in every state of the manager; and a
    call for a connection that is not in the user's set changes nothing
    provided the connection has no metadata entry either (and the user's set,
    if there is one, is not an empty set left behind).  [disconnect] is a
    total function of the manager: it has no failing path. *)
Theorem disconnect_idempotent (self : ConnectionManager) (websocket : nat)
    (uid : string) :
  disconnect websocket uid (disconnect websocket uid self)
  = disconnect websocket uid self
  ∧ (websocket ∉ conn_set self uid →
     connection_info self !! websocket = None →
     active_connections self !! uid ≠ Some ∅ →
     disconnect websocket uid self = self).
Proof.
  assert (Hnoop : ∀ s, websocket ∉ conn_set s uid →
                       connection_info s !! websocket = None →
                       active_connections s !! uid ≠ Some ∅ →
                       disconnect websocket uid s = s).
  { intros [act info] Hnin Hinfo Hkey. unfold conn_set in Hnin.
    unfold disconnect. cbn in *.
    destruct (act !! uid) as [conns|] eqn:E; cbn in *.
    - assert (Hsame : conns ∖ {[websocket]} = conns) by set_solver.
      rewrite Hsame. rewrite decide_False by congruence. cbn.
      rewrite Hinfo. by rewrite insert_id.
    - by rewrite Hinfo. }
  split; [|apply Hnoop]. apply Hnoop.
  - rewrite disconnect_conn_set, decide_True by done. set_solver.
  - by rewrite disconnect_info, lookup_delete_eq.
  - apply disconnect_no_empty_key.
Qed.

Lemma disconnect_idempotent_witness :
  disconnect 7 "u1" (mgr three_clients) = mgr three_clients.
Proof.
  apply (proj2 (disconnect_idempotent (mgr three_clients) 7 "u1")).
  - by_evaluation.
  - vm_compute. reflexivity.
  - vm_compute. discriminate.
Defined.

(** C5 as stated fails: connection 1 is registered under "u1", so it is not in
    the set of "u2", yet [disconnect(1, "u2")] deletes its metadata entry. *)
Lemma disconnect_absent_not_noop :
  ¬ (∀ (self : ConnectionManager) (websocket : nat) (uid : string),
       websocket ∉ conn_set self uid → disconnect websocket uid self = self).
Proof.
  intros Hclaim. specialize (Hclaim (mgr one_client) 1 "u2").
  assert (Hnin : 1 ∉ conn_set (mgr one_client) "u2")
    by by_evaluation.
  apply Hclaim in Hnin.
  apply (f_equal (λ s, connection_info s !! 1)) in Hnin.
  vm_compute in Hnin. discriminate.
Qed.

(** ** Claim about the read loop *)



Lemma read_loop_turn n websocket :
  read_loop (S n) websocket = (read_once websocket ;;; read_loop n websocket).
Proof. done. Qed.

(** A frame that [json.loads] turns into something that is no dictionary
    (a list, a number, a string, [null]) raises inside the loop: the generic
    handler of [handle_websocket_client] then deregisters the connection. *)
Lemma dispatch_not_a_dict websocket msg w st :
  (∀ d, msg ≠ JDict d) → dispatch websocket msg w st = (Raise Exception, st).
Proof.
  intros Hnd. unfold dispatch, bind, get_type.
  destruct msg; try done. by destruct (Hnd d).
Qed.

(** Reading the clock and sending one message built from it. *)
Lemma reply_run (build : Z → list (string * json)) websocket w st :
  (now <- utcnow ;; send_personal_message (build now) websocket) w st
  = (Ok tt,
     {| mgr := mgr st;
        wire := wire st ++
                [Sent websocket (build (utcnow_at w (clock st)))
                   (negb (send_raises w (S (clock st)) websocket))];
        clock := S (S (clock st)) |}).
Proof.
  unfold bind, utcnow, send_personal_message, try_except, send_text, tick, ret.
  cbn [mgr wire clock]. by destruct (send_raises w (S (clock st)) websocket).
Qed.

Lemma dispatch_run websocket d w st :
  dispatch websocket (JDict d) w st
  = if eq_str (dict_get "type" d) "ping"
    then (now <- utcnow ;; send_personal_message (pong_message now) websocket)
           w st
    else if eq_str (dict_get "type" d) "sync_request"
    then (now <- utcnow ;;
          send_personal_message (sync_response_message now) websocket) w st
    else (Ok tt, st).
Proof.
  unfold dispatch, bind at 1, get_type, ret at 1.
  destruct (eq_str (dict_get "type" d) "ping"); [done|].
  unfold bind at 1, ret at 1.
  by destruct (eq_str (dict_get "type" d) "sync_request").
Qed.

Lemma read_once_run websocket v w st :
  receive w (clock st) websocket = Text (Some v) →
  read_once websocket w st = dispatch websocket v w (tick st).
Proof.
  intros Hrecv. unfold read_once, bind at 1, receive_json. by rewrite Hrecv.
Qed.



(** ** Invariants along sequences of calls *)

Lemma exec_mgr w o st :
  mgr (exec w o st)
  = match o with
    | Connect ws uid dev =>
        if accept_raises w (clock st) ws then mgr st
        else register ws
               {| user_id := uid; device_id := dev;
                  connected_at := utcnow_at w (1 + clock st);
                  client := default "unknown" (client_host w ws) |}
               (mgr st)
    | Disconnect ws uid => disconnect ws uid (mgr st)
    | SendToUser uid msg =>
        match active_connections (mgr st) !! uid with
        | Some conns =>
            prune uid
              (elements (failed_of (attempts w msg (clock st) (elements conns))))
              (mgr st)
        | None => mgr st
        end
    | Broadcast _ _ => mgr st
    end.
Proof.
  unfold exec. destruct o as [ws uid dev|ws uid|uid msg|msg ex]; cbn [call].
  - rewrite connect_run. by destruct (accept_raises w (clock st) ws).
  - done.
  - destruct (active_connections (mgr st) !! uid) as [conns|] eqn:E.
    + by rewrite (send_to_user_run _ _ _ _ _ E).
    + by rewrite send_to_user_offline.
  - by rewrite broadcast_run.
Qed.

Lemma exec_all_cons w o ops st :
  exec_all w (o :: ops) st = exec_all w ops (exec w o st).
Proof. done. Qed.

Lemma register_nonempty_sets websocket i self :
  nonempty_sets self → nonempty_sets (register websocket i self).
Proof.
  intros Hinv uid conns. rewrite register_active.
  destruct (decide (uid = user_id i)) as [->|Hne].
  - rewrite lookup_insert_eq. intros [= <-]. set_solver.
  - rewrite lookup_insert_ne by done. apply Hinv.
Qed.

Lemma exec_nonempty_sets w o st :
  nonempty_sets (mgr st) → nonempty_sets (mgr (exec w o st)).
Proof.
  intros Hinv. rewrite exec_mgr. destruct o as [ws uid dev|ws uid|uid msg|msg ex].
  - destruct (accept_raises w (clock st) ws); [done|].
    by apply register_nonempty_sets.
  - by apply disconnect_nonempty_sets.
  - destruct (active_connections (mgr st) !! uid); [|done].
    by apply prune_nonempty_sets.
  - done.
Qed.

(** C3. After every sequence of calls of [connect], [disconnect],
    [send_to_user] and [broadcast] on a fresh manager, whatever the world
    answers, every key of [active_connections] holds a set that is not
    empty. *)
Theorem keys_have_connections (w : World) (ops : list op) :
  nonempty_sets (mgr (exec_all w ops init_state)).
Proof.
  assert (Hgen : ∀ st, nonempty_sets (mgr st) →
                       nonempty_sets (mgr (exec_all w ops st))).
  { induction ops as [|o ops IH]; intros st Hinv; [done|].
    rewrite exec_all_cons. apply IH. by apply exec_nonempty_sets. }
  apply Hgen. intros uid conns. cbn. by rewrite lookup_empty.
Qed.

Lemma not_elsewhere_spec websocket uid self :
  not_elsewhere websocket uid self ↔
  ∀ uid', websocket ∈ conn_set self uid' → uid' = uid.
Proof.
  unfold not_elsewhere, conn_set. rewrite map_Forall_lookup. split.
  - intros Hall uid' Hin.
    destruct (active_connections self !! uid') as [conns|] eqn:E; cbn in Hin.
    + by eapply Hall.
    + set_solver.
  - intros Hall uid' conns Hlk Hin. apply Hall. by rewrite Hlk.
Qed.

Lemma prune_subseteq uid l self uid' :
  conn_set (prune uid l self) uid' ⊆ conn_set self uid'.
Proof. rewrite prune_conn_set. case_decide; [subst|]; set_solver. Qed.

Lemma disconnect_as_prune websocket uid self :
  disconnect websocket uid self = prune uid [websocket] self.
Proof. done. Qed.

Lemma prune_one_owner uid l self :
  one_owner self → one_owner (prune uid l self).
Proof.
  intros Hinv c u1 u2 H1 H2.
  apply prune_subseteq in H1, H2. by eapply Hinv.
Qed.

Lemma register_one_owner websocket i self :
  not_elsewhere websocket (user_id i) self →
  one_owner self → one_owner (register websocket i self).
Proof.
  rewrite not_elsewhere_spec. intros Hfree Hinv c u1 u2.
  rewrite !register_conn_set.
  destruct (decide (u1 = user_id i)) as [->|N1],
           (decide (u2 = user_id i)) as [->|N2]; [done| | |apply Hinv].
  - intros [->%elem_of_singleton|Hc1]%elem_of_union Hc2.
    + by destruct N2; apply Hfree.
    + symmetry. by eapply Hinv.
  - intros Hc1 [->%elem_of_singleton|Hc2]%elem_of_union.
    + by apply Hfree.
    + by eapply Hinv.
Qed.

Lemma register_metadata_matches websocket i self :
  metadata_matches self → metadata_matches (register websocket i self).
Proof.
  intros Hinv c. unfold registered. rewrite register_info.
  destruct (decide (c = websocket)) as [->|Hne].
  - rewrite lookup_insert_eq. split; [by eauto|]. intros _.
    exists (user_id i). rewrite register_conn_set, decide_True by done.
    set_solver.
  - rewrite lookup_insert_ne by done. rewrite <-(Hinv c). unfold registered.
    split; intros [u Hc]; exists u; revert Hc; rewrite register_conn_set;
      case_decide; subst; set_solver.
Qed.

Lemma prune_metadata_matches uid l self :
  (∀ c, c ∈ l → not_elsewhere c uid self) →
  metadata_matches self → metadata_matches (prune uid l self).
Proof.
  intros Hown Hinv c. unfold registered. rewrite prune_info.
  destruct (decide (c ∈ l)) as [Hin|Hnin].
  - split; [|by intros []]. intros [u Hc]. exfalso.
    pose proof (proj1 (not_elsewhere_spec _ _ _) (Hown c Hin)) as Hfree.
    assert (u = uid) as -> by (apply Hfree; by eapply prune_subseteq).
    rewrite prune_conn_set, decide_True in Hc by done.
    apply elem_of_difference in Hc as [_ Hc]. apply Hc.
    by apply elem_of_list_to_set.
  - rewrite <-(Hinv c). unfold registered.
    split; intros [u Hc]; exists u.
    + by eapply prune_subseteq.
    + rewrite prune_conn_set. case_decide; [subst|done].
      apply elem_of_difference. split; [done|].
      by rewrite elem_of_list_to_set.
Qed.

Lemma owner_not_elsewhere websocket uid self :
  one_owner self → websocket ∈ conn_set self uid →
  not_elsewhere websocket uid self.
Proof.
  intros Hinv Hin. apply not_elsewhere_spec. intros u Hu. by eapply Hinv.
Qed.

Lemma exec_one_owner w o st :
  connect_guard o (mgr st) = true →
  one_owner (mgr st) → one_owner (mgr (exec w o st)).
Proof.
  intros Hguard Hinv. rewrite exec_mgr.
  destruct o as [ws uid dev|ws uid|uid msg|msg ex]; cbn in Hguard.
  - destruct (accept_raises w (clock st) ws); [done|].
    apply register_one_owner; [|done]. by apply bool_decide_eq_true in Hguard.
  - rewrite disconnect_as_prune. by apply prune_one_owner.
  - destruct (active_connections (mgr st) !! uid); [|done].
    by apply prune_one_owner.
  - done.
Qed.

Lemma exec_metadata_matches w o st :
  owner_guard o (mgr st) = true →
  one_owner (mgr st) → metadata_matches (mgr st) →
  metadata_matches (mgr (exec w o st)).
Proof.
  intros Hguard Hone Hinv. rewrite exec_mgr.
  destruct o as [ws uid dev|ws uid|uid msg|msg ex]; cbn in Hguard.
  - destruct (accept_raises w (clock st) ws); [done|].
    by apply register_metadata_matches.
  - rewrite disconnect_as_prune. apply prune_metadata_matches; [|done].
    intros c ->%list_elem_of_singleton. by apply bool_decide_eq_true in Hguard.
  - destruct (active_connections (mgr st) !! uid) as [conns|] eqn:E; [|done].
    apply prune_metadata_matches; [|done].
    intros c Hc%elem_of_elements. apply owner_not_elsewhere; [done|].
    apply failed_of_subseteq in Hc.
    unfold conn_set. rewrite E. cbn. set_solver.
  - done.
Qed.

Lemma owner_guard_connect_guard o self :
  owner_guard o self = true → connect_guard o self = true.
Proof. by destruct o. Qed.

Lemma init_one_owner : one_owner (mgr init_state).
Proof. intros c u1 u2. unfold conn_set. cbn. rewrite lookup_empty. set_solver. Qed.

Lemma init_metadata_matches : metadata_matches (mgr init_state).
Proof.
  intros c. unfold registered, conn_set. cbn. rewrite !lookup_empty. split.
  - intros [u Hc]. rewrite lookup_empty in Hc. set_solver.
  - by intros [].
Qed.

Lemma orderly_accept_once : accept_once orderly.
Proof.
  intros websocket n m Hn Hm. cbn in Hn, Hm.
  apply negb_false_iff, Nat.eqb_eq in Hn, Hm. lia.
Qed.

Lemma init_accepted_before w : accepted_before w init_state.
Proof.
  intros websocket uid. unfold conn_set. cbn. rewrite lookup_empty. set_solver.
Qed.

(** A socket that passes the handshake now is in no set. *)
Lemma accepted_now_unregistered w st websocket uid :
  accept_once w → accepted_before w st →
  accept_raises w (clock st) websocket = false →
  websocket ∉ conn_set (mgr st) uid.
Proof.
  intros Honce Hbefore Hacc Hin.
  destruct (Hbefore _ _ Hin) as (k & Hlt & Hk).
  pose proof (Honce _ _ _ Hk Hacc). lia.
Qed.

Lemma exec_accepted_before w o st :
  accepted_before w st → accepted_before w (exec w o st).
Proof.
  intros Hinv. unfold exec.
  destruct o as [ws uid dev|ws uid|uid msg|msg ex]; cbn [call].
  - rewrite connect_run.
    destruct (accept_raises w (clock st) ws) eqn:Hacc; cbn [snd].
    + intros c u Hc. destruct (Hinv c u Hc) as (k & Hlt & Hk).
      exists k. cbn. split; [lia | done].
    + intros c u. cbn [mgr clock].
      rewrite (register_conn_set ws
                 {| user_id := uid; device_id := dev;
                    connected_at := utcnow_at w (1 + clock st);
                    client := default "unknown" (client_host w ws) |}).
      cbn [user_id].
      assert (Hold : c ∈ conn_set (mgr st) u →
                     ∃ k, k < 4 + clock st ∧ accept_raises w k c = false).
      { intros Hc. destruct (Hinv c u Hc) as (k & Hlt & Hk).
        exists k. split; [lia | done]. }
      case_decide as Hu; [subst u|done].
      intros [->%elem_of_singleton|Hc]%elem_of_union; [|by apply Hold].
      exists (clock st). split; [lia | done].
  - intros c u Hc. cbn in Hc. rewrite disconnect_as_prune in Hc.
    apply prune_subseteq in Hc. exact (Hinv c u Hc).
  - destruct (active_connections (mgr st) !! uid) as [conns|] eqn:E.
    + rewrite (send_to_user_run _ _ _ _ _ E). intros c u Hc. cbn in Hc.
      apply prune_subseteq in Hc. destruct (Hinv c u Hc) as (k & Hlt & Hk).
      exists k. cbn. split; [lia | done].
    + by rewrite send_to_user_offline.
  - rewrite broadcast_run. intros c u Hc. cbn in Hc.
    destruct (Hinv c u Hc) as (k & Hlt & Hk). exists k. cbn. split; [lia | done].
Qed.

Lemma exec_one_owner_once w o st :
  accept_once w → accepted_before w st →
  one_owner (mgr st) → one_owner (mgr (exec w o st)).
Proof.
  intros Honce Hbefore Hinv. rewrite exec_mgr.
  destruct o as [ws uid dev|ws uid|uid msg|msg ex].
  - destruct (accept_raises w (clock st) ws) eqn:Hacc; [done|].
    apply register_one_owner; [|done]. apply not_elsewhere_spec.
    intros u Hin. by destruct (accepted_now_unregistered w st ws u).
  - rewrite disconnect_as_prune. by apply prune_one_owner.
  - destruct (active_connections (mgr st) !! uid); [|done].
    by apply prune_one_owner.
  - done.
Qed.

Lemma exec_metadata_matches_once w o st :
  disconnect_guard o (mgr st) = true →
  one_owner (mgr st) → metadata_matches (mgr st) →
  metadata_matches (mgr (exec w o st)).
Proof.
  intros Hguard Hone Hinv. rewrite exec_mgr.
  destruct o as [ws uid dev|ws uid|uid msg|msg ex]; cbn in Hguard.
  - destruct (accept_raises w (clock st) ws); [done|].
    by apply register_metadata_matches.
  - rewrite disconnect_as_prune. apply prune_metadata_matches; [|done].
    intros c ->%list_elem_of_singleton. by apply bool_decide_eq_true in Hguard.
  - destruct (active_connections (mgr st) !! uid) as [conns|] eqn:E; [|done].
    apply prune_metadata_matches; [|done].
    intros c Hc%elem_of_elements. apply owner_not_elsewhere; [done|].
    apply failed_of_subseteq in Hc.
    unfold conn_set. rewrite E. cbn. set_solver.
  - done.
Qed.

(** C4. In every world in which a socket passes the handshake at most once,
    after every sequence of calls of [connect], [disconnect], [send_to_user]
    and [broadcast] on a fresh manager, no connection is in the sets of two
    users: a [connect] for a connection that is registered, under whatever
    user, raises at [accept()] before it touches the manager. *)
Theorem one_owner_always (w : World) (ops : list op) :
  accept_once w →
  one_owner (mgr (exec_all w ops init_state)).
Proof.
  intros Honce.
  assert (Hgen : ∀ st, accepted_before w st → one_owner (mgr st) →
                       one_owner (mgr (exec_all w ops st))).
  { induction ops as [|o ops IH]; intros st Hbefore Hinv; [done|].
    rewrite exec_all_cons. apply IH.
    - by apply exec_accepted_before.
    - by apply exec_one_owner_once. }
  apply Hgen; [apply init_accepted_before | apply init_one_owner].
Qed.

Lemma one_owner_always_witness :
  one_owner (mgr (exec_all orderly
                    [Connect 0 "u1" None; Connect 1 "u1" None;
                     Connect 2 "u2" None; Connect 0 "u2" None;
                     Disconnect 1 "u2"; SendToUser "u1" []]
                    init_state)).
Proof.
  apply one_owner_always.
  intros websocket n m Hn Hm. cbn in Hn, Hm.
  apply negb_false_iff, Nat.eqb_eq in Hn, Hm. lia.
Defined.

(** The second handshake on a registered socket is refused: the call leaves
    the manager as it was. *)
Example second_connect_refused :
  let st := exec_all orderly [Connect 0 "u1" None; Connect 1 "u1" None]
              init_state in
  mgr (exec orderly (Connect 0 "u2" None) st) = mgr st.
Proof. vm_compute. reflexivity. Qed.

(** C2, as the code has it.  In every world in which a socket passes the
    handshake at most once, after every sequence of calls on a fresh manager
    in which [disconnect] is never called for a connection that is at that
    moment in the set of another user than the one named in the call, a
    connection is in some user's set exactly when it has a metadata entry. *)
Theorem metadata_matches_when_owner_is_named (w : World) (ops : list op) :
  accept_once w →
  respects disconnect_guard w ops init_state = true →
  metadata_matches (mgr (exec_all w ops init_state)).
Proof.
  intros Honce.
  assert (Hgen : ∀ st, respects disconnect_guard w ops st = true →
                       accepted_before w st →
                       one_owner (mgr st) → metadata_matches (mgr st) →
                       metadata_matches (mgr (exec_all w ops st))).
  { induction ops as [|o ops IH]; intros st Hok Hbefore Hone Hinv; [done|].
    cbn [respects] in Hok. apply andb_true_iff in Hok as [Hg Hok].
    rewrite exec_all_cons. apply IH; [done| | |].
    - by apply exec_accepted_before.
    - by apply exec_one_owner_once.
    - by apply exec_metadata_matches_once. }
  intros Hok.
  apply Hgen; [done | apply init_accepted_before | apply init_one_owner
              | apply init_metadata_matches].
Qed.

Lemma metadata_matches_when_owner_is_named_witness :
  metadata_matches (mgr (exec_all orderly
                           [Connect 0 "u1" None; Connect 1 "u1" (Some "tv");
                            Connect 2 "u2" None; Connect 0 "u2" None;
                            Broadcast [] (Some ["u2"]);
                            Disconnect 2 "u2"; Disconnect 2 "u2";
                            SendToUser "u1" []]
                           init_state)).
Proof.
  apply metadata_matches_when_owner_is_named.
  - intros websocket n m Hn Hm. cbn in Hn, Hm.
    apply negb_false_iff, Nat.eqb_eq in Hn, Hm. lia.
  - vm_compute. reflexivity.
Defined.

(** C2 as stated fails, also when each socket passes the handshake once:
    [disconnect] deletes the metadata entry of the connection whatever user it
    is called with, so after connecting connection 0 under "u1", the call
    [disconnect(0, "u2")] leaves it in the set of "u1" without a metadata
    entry. *)
Lemma disconnect_wrong_user_drops_metadata :
  ¬ (∀ (w : World) (ops : list op),
       accept_once w →
       metadata_matches (mgr (exec_all w ops init_state))).
Proof.
  intros Hclaim.
  specialize (Hclaim orderly [Connect 0 "u1" None; Disconnect 0 "u2"]
                orderly_accept_once 0).
  destruct Hclaim as [Hmeta _].
  destruct Hmeta as [i Hi].
  - exists "u1". by_evaluation.
  - vm_compute in Hi. discriminate.
Qed.

(** * Further properties of the module *)

(** ** The read loop and the session handler *)

Lemma read_once_bad_frame websocket w st :
  (∀ d, receive w (clock st) websocket ≠ Text (Some (JDict d))) →
  read_once websocket w st
  = (Raise (match receive w (clock st) websocket with
            | Closed => WebSocketDisconnect
            | _ => Exception
            end), tick st).
Proof.
  intros Hbad. unfold read_once, bind at 1, receive_json.
  destruct (receive w (clock st) websocket) as [[v|]| |] eqn:E; try done.
  rewrite dispatch_not_a_dict; [done|]. intros d ->. by destruct (Hbad d).
Qed.

Lemma read_loop_run w websocket turns st :
  read_loop turns websocket w st
  = let '(r, ts, clk) := loop_outcome w websocket turns (clock st) in
    (r, {| mgr := mgr st; wire := wire st ++ ts; clock := clk |}).
Proof.
  revert st. induction turns as [|n IH]; intros st.
  - cbn. unfold ret. rewrite app_nil_r. by destruct st.
  - cbn [read_loop loop_outcome]. unfold bind at 1.
    destruct (receive w (clock st) websocket) as [[v|]| |] eqn:E.
    2-4: rewrite read_once_bad_frame by (intros d; rewrite E; discriminate);
         rewrite E; cbn; by rewrite app_nil_r.
    destruct v as [| | | | | |d].
    1-6: rewrite read_once_bad_frame by (intros d; rewrite E; congruence);
         rewrite E; cbn; by rewrite app_nil_r.
    rewrite (read_once_run _ _ _ _ E), dispatch_run.
    destruct (eq_str (dict_get "type" d) "ping");
      [|destruct (eq_str (dict_get "type" d) "sync_request")];
      rewrite ?reply_run, IH; cbn [mgr wire clock tick Nat.add];
      match goal with
      | |- context [loop_outcome w websocket n ?c] =>
          destruct (loop_outcome w websocket n c) as [[r ts] clk]
      end;
      by rewrite <-?app_assoc.
Qed.

Lemma loop_outcome_replies w websocket turns clk :
  Forall (λ t, to t = websocket) (loop_outcome w websocket turns clk).1.2
  ∧ length (loop_outcome w websocket turns clk).1.2 ≤ turns.
Proof.
  revert clk. induction turns as [|n IH]; intros clk; [by split; cbn|].
  cbn [loop_outcome].
  destruct (receive w clk websocket) as [[[| | | | | |d]|]| |];
    try (split; cbn; [constructor | lia]).
  destruct (eq_str (dict_get "type" d) "ping").
  { destruct (IH (3 + clk)) as [Hto Hlen].
    destruct (loop_outcome w websocket n (3 + clk)) as [[r ts] clk'].
    cbn in *. split; [by constructor | lia]. }
  destruct (eq_str (dict_get "type" d) "sync_request").
  { destruct (IH (3 + clk)) as [Hto Hlen].
    destruct (loop_outcome w websocket n (3 + clk)) as [[r ts] clk'].
    cbn in *. split; [by constructor | lia]. }
  destruct (IH (1 + clk)) as [Hto Hlen]. split; [done | lia].
Qed.

Lemma handle_websocket_client_run turns websocket uid dev w st :
  handle_websocket_client turns websocket uid dev w st
  = if accept_raises w (clock st) websocket then (Raise Exception, tick st)
    else
      let '(r, ts, clk) := loop_outcome w websocket turns (4 + clock st) in
      let registered_mgr :=
        register websocket (session_info w st websocket uid dev) (mgr st) in
      (Ok tt,
       {| mgr := match r with
                 | Ok _ => registered_mgr
                 | Raise _ => disconnect websocket uid registered_mgr
                 end;
          wire := wire st ++ session_ack w st websocket uid :: ts;
          clock := clk |}).
Proof.
  unfold handle_websocket_client, bind at 1. rewrite connect_run.
  destruct (accept_raises w (clock st) websocket); [done|].
  unfold try_except. rewrite read_loop_run. cbn [mgr wire clock].
  destruct (loop_outcome w websocket turns (4 + clock st)) as [[[[]|e] ts] clk];
    unfold modify, session_ack, session_info; cbn [mgr wire clock];
    by rewrite <-app_assoc.
Qed.

Lemma manager_eq (a b : ConnectionManager) :
  active_connections a = active_connections b →
  connection_info a = connection_info b → a = b.
Proof. destruct a, b. cbn. by intros -> ->. Qed.

Lemma disconnect_absent websocket uid self :
  fresh websocket uid self → disconnect websocket uid self = self.
Proof.
  intros (Hnin & Hinfo & Hkey). apply manager_eq.
  - rewrite disconnect_active. unfold conn_set in Hnin.
    destruct (active_connections self !! uid) as [conns|] eqn:E; [|done].
    cbn in Hnin.
    assert (Hsame : conns ∖ {[websocket]} = conns) by set_solver.
    rewrite Hsame, decide_False by congruence. by apply insert_id.
  - rewrite disconnect_info. by apply delete_id.
Qed.

Lemma disconnect_register websocket i self :
  fresh websocket (user_id i) self →
  disconnect websocket (user_id i) (register websocket i self) = self.
Proof.
  intros (Hnin & Hinfo & Hkey). apply manager_eq.
  - rewrite disconnect_active, register_active, lookup_insert_eq.
    assert (Hback : ({[websocket]} ∪ conn_set self (user_id i)) ∖ {[websocket]}
                    = conn_set self (user_id i)) by set_solver.
    rewrite Hback. unfold conn_set in *.
    destruct (active_connections self !! user_id i) as [conns|] eqn:E; cbn in *.
    + rewrite decide_False by congruence.
      rewrite insert_insert_eq. by apply insert_id.
    + rewrite decide_True by done. rewrite delete_insert_eq. by apply delete_id.
  - rewrite disconnect_info, register_info, delete_insert_eq. by apply delete_id.
Qed.

(** X1. Registering a connection that is new to the manager and then
    deregistering it under the same user gives back the manager as it was:
    both dictionaries, the user's key included. *)
Theorem connect_then_disconnect_restores (w : World) (st : State)
    (websocket : nat) (uid : string) (dev : option string) :
  fresh websocket uid (mgr st) →
  mgr (exec w (Disconnect websocket uid) (exec w (Connect websocket uid dev) st))
  = mgr st.
Proof.
  intros Hfresh. rewrite !exec_mgr.
  destruct (accept_raises w (clock st) websocket).
  - by apply disconnect_absent.
  - by apply (disconnect_register websocket
                {| user_id := uid; device_id := dev;
                   connected_at := utcnow_at w (1 + clock st);
                   client := default "unknown" (client_host w websocket) |}).
Qed.

Lemma connect_then_disconnect_restores_witness :
  mgr (exec calm (Disconnect 9 "u1")
         (exec calm (Connect 9 "u1" (Some "tv")) three_clients))
  = mgr three_clients.
Proof.
  apply connect_then_disconnect_restores.
  split_and!; [by_evaluation | by vm_compute | vm_compute; discriminate].
Defined.

(** X2. When the handshake [websocket.accept()] raises, the exception leaves
    [handle_websocket_client] (the call to [connect] is outside the [try]);
    nothing was registered and nothing was sent. *)
Theorem session_refused_leaves_no_trace (turns : nat) (w : World) (st : State)
    (websocket : nat) (uid : string) (dev : option string) :
  accept_raises w (clock st) websocket = true →
  let out := handle_websocket_client turns websocket uid dev w st in
  out.1 = Raise Exception ∧ mgr out.2 = mgr st ∧ wire out.2 = wire st.
Proof.
  intros Hacc out. subst out. by rewrite handle_websocket_client_run, Hacc.
Qed.

Lemma session_refused_leaves_no_trace_witness :
  mgr (handle_websocket_client 3 9 "u1" None closed_door three_clients).2
  = mgr three_clients.
Proof.
  apply (session_refused_leaves_no_trace 3 closed_door three_clients 9 "u1" None).
  reflexivity.
Defined.

(** X3. Once the handshake went through, at whatever point the session is
    looked at (after any number of turns of its loop, or after the loop was
    left and a handler ran), all that [handle_websocket_client] has
    transmitted, the acknowledgement first and then at most one reply per
    turn, went to its own connection; the sets of the other users and the
    metadata of the other connections are what they were. *)
Theorem session_keeps_to_itself (turns : nat) (w : World) (st : State)
    (websocket : nat) (uid : string) (dev : option string) :
  accept_raises w (clock st) websocket = false →
  let out := handle_websocket_client turns websocket uid dev w st in
  (∃ replies,
     wire out.2 = wire st ++ session_ack w st websocket uid :: replies
     ∧ Forall (λ t, to t = websocket) replies
     ∧ length replies ≤ turns)
  ∧ (∀ uid', uid' ≠ uid →
       active_connections (mgr out.2) !! uid'
       = active_connections (mgr st) !! uid')
  ∧ (∀ c, c ≠ websocket →
       connection_info (mgr out.2) !! c = connection_info (mgr st) !! c).
Proof.
  intros Hacc out. subst out. rewrite handle_websocket_client_run, Hacc.
  destruct (loop_outcome_replies w websocket turns (4 + clock st)) as [Hto Hlen].
  destruct (loop_outcome w websocket turns (4 + clock st)) as [[r ts] clk].
  cbn [fst snd mgr wire] in *. split_and!; [by exists ts | |].
  - intros uid' Hne. destruct r.
    + rewrite register_active. by rewrite lookup_insert_ne.
    + rewrite disconnect_active_ne, register_active by done.
      by rewrite lookup_insert_ne.
  - intros c Hne. destruct r.
    + rewrite register_info. by rewrite lookup_insert_ne.
    + rewrite disconnect_info, register_info.
      by rewrite lookup_delete_ne, lookup_insert_ne.
Qed.

Lemma session_keeps_to_itself_witness :
  active_connections
    (mgr (handle_websocket_client 2 9 "u1" None pinging three_clients).2) !! "u2"
  = active_connections (mgr three_clients) !! "u2".
Proof.
  destruct (session_keeps_to_itself 2 pinging three_clients 9 "u1" None eq_refl)
    as (_ & Hothers & _).
  by apply Hothers.
Defined.

(** X4. When the loop of a session is left by [WebSocketDisconnect] or by
    another exception of class [Exception] (the transport failed, a frame did
    not parse or was no record), the handler that catches it returns normally
    and the manager is the one [disconnect] makes of the registered
    connection: it is in the user's set no more and has no metadata.  If the
    connection was new to the manager when the session began, the manager is
    back to what it was then.  (An exception that is no [Exception], such as
    the cancellation of the task, is caught by neither handler; it is outside
    this statement.) *)
Theorem session_end_deregisters (turns : nat) (w : World) (st : State)
    (websocket : nat) (uid : string) (dev : option string) (e : exn) :
  accept_raises w (clock st) websocket = false →
  (read_loop turns websocket w (connect websocket uid dev w st).2).1 = Raise e →
  let out := handle_websocket_client turns websocket uid dev w st in
  out.1 = Ok tt
  ∧ mgr out.2
    = disconnect websocket uid
        (register websocket (session_info w st websocket uid dev) (mgr st))
  ∧ websocket ∉ conn_set (mgr out.2) uid
  ∧ connection_info (mgr out.2) !! websocket = None
  ∧ (fresh websocket uid (mgr st) → mgr out.2 = mgr st).
Proof.
  intros Hacc Hloop out. subst out.
  rewrite read_loop_run, connect_run, Hacc in Hloop. cbn [snd clock] in Hloop.
  rewrite handle_websocket_client_run, Hacc.
  destruct (loop_outcome w websocket turns (4 + clock st)) as [[r ts] clk].
  cbn [fst snd mgr] in *. subst r. split_and!; [done | done | | |].
  - rewrite disconnect_conn_set, decide_True by done. set_solver.
  - by rewrite disconnect_info, lookup_delete_eq.
  - intros Hfresh.
    by apply (disconnect_register websocket (session_info w st websocket uid dev)).
Qed.

Lemma session_end_deregisters_witness :
  mgr (handle_websocket_client 4 9 "u1" None calm three_clients).2
  = mgr three_clients.
Proof.
  destruct (session_end_deregisters 4 calm three_clients 9 "u1" None
              WebSocketDisconnect eq_refl eq_refl) as (_ & _ & _ & _ & Hback).
  apply Hback.
  split_and!; [by_evaluation | by vm_compute | vm_compute; discriminate].
Defined.

(** X5. A first frame that is not a record ends the session at once: be it
    the close of the connection, a transport error, text that [json.loads]
    rejects, or JSON that is no object (for which [message.get] raises), the
    handler sends nothing after the acknowledgement and deregisters the
    connection. *)
Theorem session_bad_first_frame (turns : nat) (w : World) (st : State)
    (websocket : nat) (uid : string) (dev : option string) :
  accept_raises w (clock st) websocket = false →
  (∀ d, receive w (4 + clock st) websocket ≠ Text (Some (JDict d))) →
  let out := handle_websocket_client (S turns) websocket uid dev w st in
  out.1 = Ok tt
  ∧ wire out.2 = wire st ++ [session_ack w st websocket uid]
  ∧ mgr out.2
    = disconnect websocket uid
        (register websocket (session_info w st websocket uid dev) (mgr st)).
Proof.
  intros Hacc Hbad out. subst out. rewrite handle_websocket_client_run, Hacc.
  cbn [loop_outcome].
  destruct (receive w (4 + clock st) websocket) as [[[| | | | | |d]|]| |] eqn:E;
    try done.
  by destruct (Hbad d).
Qed.

Lemma session_bad_first_frame_witness :
  wire (handle_websocket_client 3 9 "u1" None listing three_clients).2
  = wire three_clients ++ [session_ack listing three_clients 9 "u1"].
Proof.
  destruct (session_bad_first_frame 2 listing three_clients 9 "u1" None eq_refl)
    as (_ & Hwire & _); [|exact Hwire].
  intros d. vm_compute. discriminate.
Defined.

(** X6. The two routes of [main.py] differ by the device recorded in the
    metadata of their own connection and by nothing else: same outcome, same
    transmissions, same [active_connections], same metadata for every other
    connection; and once the session is over the managers are equal. *)
Theorem routes_differ_by_device_only (turns : nat) (w : World) (st : State)
    (websocket : nat) (uid device : string) :
  let plain := websocket_endpoint turns websocket uid w st in
  let named := websocket_device_endpoint turns websocket uid device w st in
  plain.1 = named.1
  ∧ wire plain.2 = wire named.2
  ∧ active_connections (mgr plain.2) = active_connections (mgr named.2)
  ∧ (∀ c, c ≠ websocket →
       connection_info (mgr plain.2) !! c = connection_info (mgr named.2) !! c)
  ∧ (websocket ∉ conn_set (mgr plain.2) uid → mgr plain.2 = mgr named.2).
Proof.
  intros plain named. subst plain named.
  unfold websocket_endpoint, websocket_device_endpoint.
  rewrite !handle_websocket_client_run.
  destruct (accept_raises w (clock st) websocket); [by split_and!|].
  destruct (loop_outcome w websocket turns (4 + clock st)) as [[r ts] clk].
  cbn [fst snd mgr wire]. unfold session_ack.
  assert (Hdisc : disconnect websocket uid
                    (register websocket (session_info w st websocket uid None)
                       (mgr st))
                  = disconnect websocket uid
                      (register websocket
                         (session_info w st websocket uid (Some device)) (mgr st))).
  { apply manager_eq.
    - by rewrite !disconnect_active, !register_active.
    - by rewrite !disconnect_info, !register_info, !delete_insert_eq. }
  destruct r.
  - split_and!; [done | done | by rewrite !register_active | |].
    + intros c Hne. by rewrite !register_info, !lookup_insert_ne.
    + intros Hnin. destruct Hnin.
      rewrite (register_conn_set websocket
                 (session_info w st websocket uid None) (mgr st) uid).
      rewrite decide_True by done. set_solver.
  - rewrite Hdisc. by split_and!.
Qed.

Lemma routes_differ_by_device_only_witness :
  mgr (websocket_endpoint 2 9 "u1" calm three_clients).2
  = mgr (websocket_device_endpoint 2 9 "u1" "tv" calm three_clients).2.
Proof.
  destruct (routes_differ_by_device_only 2 calm three_clients 9 "u1" "tv")
    as (_ & _ & _ & _ & Hover).
  apply Hover. by_evaluation.
Defined.

(** ** Counting connections and listing users *)

Lemma total_size_insert_absent (m : gmap string (gset nat)) uid conns :
  m !! uid = None → total_size (<[uid := conns]> m) = size conns + total_size m.
Proof.
  intros Hlk. unfold total_size. by rewrite map_to_list_insert.
Qed.

Lemma total_size_insert (m : gmap string (gset nat)) uid conns :
  total_size (<[uid := conns]> m) = size conns + total_size (delete uid m).
Proof.
  rewrite <-insert_delete_eq. apply total_size_insert_absent, lookup_delete_eq.
Qed.

(** The count, split into the share of one user and the rest. *)
Lemma count_by_user self uid :
  get_connection_count self
  = size (conn_set self uid) + total_size (delete uid (active_connections self)).
Proof.
  unfold get_connection_count, conn_set. fold (total_size (active_connections self)).
  destruct (active_connections self !! uid) as [conns|] eqn:E; cbn.
  - rewrite <-total_size_insert. by rewrite insert_id.
  - by rewrite size_empty, delete_id.
Qed.

Lemma register_rest websocket i self :
  delete (user_id i) (active_connections (register websocket i self))
  = delete (user_id i) (active_connections self).
Proof. by rewrite register_active, delete_insert_eq. Qed.

Lemma disconnect_rest websocket uid self :
  delete uid (active_connections (disconnect websocket uid self))
  = delete uid (active_connections self).
Proof.
  rewrite disconnect_active.
  destruct (active_connections self !! uid) as [conns|]; [|done].
  destruct (decide (conns ∖ {[websocket]} = ∅)).
  - by rewrite delete_delete_eq.
  - by rewrite delete_insert_eq.
Qed.

Lemma register_count websocket i self :
  get_connection_count (register websocket i self)
  = get_connection_count self
    + (if decide (websocket ∈ conn_set self (user_id i)) then 0 else 1).
Proof.
  rewrite (count_by_user _ (user_id i)), (count_by_user self (user_id i)).
  rewrite register_rest, register_conn_set, decide_True by done.
  case_decide as Hin.
  - assert (Hsame : {[websocket]} ∪ conn_set self (user_id i)
                    = conn_set self (user_id i)) by set_solver.
    rewrite Hsame. lia.
  - rewrite size_union, size_singleton by set_solver. lia.
Qed.

Lemma disconnect_count websocket uid self :
  get_connection_count (disconnect websocket uid self)
  + (if decide (websocket ∈ conn_set self uid) then 1 else 0)
  = get_connection_count self.
Proof.
  rewrite (count_by_user _ uid), (count_by_user self uid).
  rewrite disconnect_rest, disconnect_conn_set, decide_True by done.
  case_decide as Hin.
  - rewrite size_difference, size_singleton by set_solver.
    assert (0 < size (conn_set self uid)); [|lia].
    apply Nat.neq_0_lt_0. intros Hz%size_empty_inv. set_solver.
  - assert (Hsame : conn_set self uid ∖ {[websocket]} = conn_set self uid)
      by set_solver.
    rewrite Hsame. lia.
Qed.

(** X7. A successful [connect] raises [get_connection_count] by one when the
    connection was not in the user's set and leaves it as it was when the
    connection was there already: connecting the same socket again under the
    same user is not counted twice. *)
Theorem connect_counts_new_members (w : World) (st : State) (websocket : nat)
    (uid : string) (dev : option string) :
  accept_raises w (clock st) websocket = false →
  get_connection_count (mgr (connect websocket uid dev w st).2)
  = get_connection_count (mgr st)
    + (if decide (websocket ∈ conn_set (mgr st) uid) then 0 else 1).
Proof.
  intros Hacc. rewrite connect_run, Hacc. cbn [snd mgr].
  apply (register_count websocket
           {| user_id := uid; device_id := dev;
              connected_at := utcnow_at w (1 + clock st);
              client := default "unknown" (client_host w websocket) |}).
Qed.

Lemma connect_counts_new_members_witness :
  get_connection_count (mgr (connect 9 "u1" None calm three_clients).2) = 4.
Proof.
  rewrite (connect_counts_new_members calm three_clients) by reflexivity.
  vm_compute. reflexivity.
Defined.

(** X8. [disconnect] lowers [get_connection_count] by one when the connection
    is in the set of the user it is called with, and by nothing otherwise. *)
Theorem disconnect_counts_members (self : ConnectionManager) (websocket : nat)
    (uid : string) :
  get_connection_count (disconnect websocket uid self)
  = get_connection_count self
    - (if decide (websocket ∈ conn_set self uid) then 1 else 0).
Proof.
  pose proof (disconnect_count websocket uid self). case_decide; lia.
Qed.

Example disconnect_counts_members_sample :
  get_connection_count (disconnect 3 "u1" (mgr three_clients)) = 3.
Proof. vm_compute. reflexivity. Qed.

Lemma not_elsewhere_disconnect c uid d uid' self :
  not_elsewhere c uid self → not_elsewhere c uid (disconnect d uid' self).
Proof.
  rewrite !not_elsewhere_spec. intros Hfree u Hin. apply Hfree.
  rewrite disconnect_as_prune in Hin. by eapply prune_subseteq.
Qed.

Lemma owned_iff_metadata websocket uid self :
  not_elsewhere websocket uid self → metadata_matches self →
  websocket ∈ conn_set self uid ↔ is_Some (connection_info self !! websocket).
Proof.
  rewrite not_elsewhere_spec. intros Hfree Hmeta. rewrite <-(Hmeta websocket).
  split; [by exists uid|]. intros [u Hin]. by rewrite <-(Hfree u Hin).
Qed.

Lemma register_counted websocket i self :
  not_elsewhere websocket (user_id i) self → metadata_matches self →
  get_connection_count self = size (connection_info self) →
  get_connection_count (register websocket i self)
  = size (connection_info (register websocket i self)).
Proof.
  intros Hfree Hmeta Hcount.
  pose proof (owned_iff_metadata _ _ _ Hfree Hmeta) as Hiff.
  rewrite register_count, register_info, map_size_insert, Hcount.
  case_decide as Hin.
  - apply Hiff in Hin as [j ->]. cbn. lia.
  - destruct (connection_info self !! websocket) eqn:E; cbn; [|lia].
    destruct Hin. apply Hiff. eauto.
Qed.

Lemma disconnect_counted websocket uid self :
  not_elsewhere websocket uid self → metadata_matches self →
  get_connection_count self = size (connection_info self) →
  get_connection_count (disconnect websocket uid self)
  = size (connection_info (disconnect websocket uid self)).
Proof.
  intros Hfree Hmeta Hcount.
  pose proof (owned_iff_metadata _ _ _ Hfree Hmeta) as Hiff.
  pose proof (disconnect_count websocket uid self) as Hstep.
  rewrite disconnect_info, map_size_delete. rewrite Hcount in Hstep.
  case_decide as Hin.
  - apply Hiff in Hin as [j ->]. cbn. lia.
  - destruct (connection_info self !! websocket) eqn:E; cbn; [|lia].
    destruct Hin. apply Hiff. eauto.
Qed.

Lemma prune_counted uid l self :
  (∀ c, c ∈ l → not_elsewhere c uid self) → metadata_matches self →
  get_connection_count self = size (connection_info self) →
  get_connection_count (prune uid l self)
  = size (connection_info (prune uid l self)).
Proof.
  revert self. induction l as [|d l IH]; intros self Hown Hmeta Hcount; [done|].
  cbn [prune foldl]. fold (prune uid l (disconnect d uid self)). apply IH.
  - intros c Hc. apply not_elsewhere_disconnect, Hown. by right.
  - rewrite disconnect_as_prune. apply prune_metadata_matches; [|done].
    intros c ->%list_elem_of_singleton. apply Hown. by left.
  - apply disconnect_counted; [|done..]. apply Hown. by left.
Qed.

Lemma exec_counted w o st :
  owner_guard o (mgr st) = true →
  one_owner (mgr st) → metadata_matches (mgr st) →
  get_connection_count (mgr st) = size (connection_info (mgr st)) →
  get_connection_count (mgr (exec w o st))
  = size (connection_info (mgr (exec w o st))).
Proof.
  intros Hguard Hone Hmeta Hcount. rewrite exec_mgr.
  destruct o as [ws uid dev|ws uid|uid msg|msg ex]; cbn in Hguard.
  - destruct (accept_raises w (clock st) ws); [done|].
    apply register_counted; [|done..]. by apply bool_decide_eq_true in Hguard.
  - apply disconnect_counted; [|done..]. by apply bool_decide_eq_true in Hguard.
  - destruct (active_connections (mgr st) !! uid) as [conns|] eqn:E; [|done].
    apply prune_counted; [|done..].
    intros c Hc%elem_of_elements. apply owner_not_elsewhere; [done|].
    apply failed_of_subseteq in Hc.
    unfold conn_set. rewrite E. cbn. set_solver.
  - done.
Qed.

(** X9. After every sequence of calls on a fresh manager in which [connect]
    and [disconnect] name a connection only while no other user holds it,
    [get_connection_count] is the number of metadata entries: the sum of the
    sizes of the users' sets counts each live connection once. *)
Theorem count_is_number_of_metadata_entries (w : World) (ops : list op) :
  respects owner_guard w ops init_state = true →
  get_connection_count (mgr (exec_all w ops init_state))
  = size (connection_info (mgr (exec_all w ops init_state))).
Proof.
  assert (Hgen : ∀ st,
    respects owner_guard w ops st = true →
    one_owner (mgr st) → metadata_matches (mgr st) →
    get_connection_count (mgr st) = size (connection_info (mgr st)) →
    get_connection_count (mgr (exec_all w ops st))
    = size (connection_info (mgr (exec_all w ops st)))).
  { induction ops as [|o ops IH]; intros st Hok Hone Hmeta Hcount; [done|].
    cbn [respects] in Hok. apply andb_true_iff in Hok as [Hg Hok].
    rewrite exec_all_cons. apply IH; [done| | |].
    - apply exec_one_owner; [|done]. by apply owner_guard_connect_guard.
    - by apply exec_metadata_matches.
    - by apply exec_counted. }
  intros Hok.
  apply Hgen; [done | apply init_one_owner | apply init_metadata_matches | done].
Qed.

Lemma count_is_number_of_metadata_entries_witness :
  get_connection_count
    (mgr (exec_all orderly
            [Connect 0 "u1" None; Connect 1 "u1" None; Connect 2 "u2" None;
             Disconnect 2 "u2"; SendToUser "u1" []]
            init_state))
  = size (connection_info
            (mgr (exec_all orderly
                    [Connect 0 "u1" None; Connect 1 "u1" None;
                     Connect 2 "u2" None; Disconnect 2 "u2";
                     SendToUser "u1" []]
                    init_state))).
Proof.
  apply count_is_number_of_metadata_entries. vm_compute. reflexivity.
Defined.

Lemma exec_all_nonempty_sets w ops st :
  nonempty_sets (mgr st) → nonempty_sets (mgr (exec_all w ops st)).
Proof.
  revert st. induction ops as [|o ops IH]; intros st Hinv; [done|].
  rewrite exec_all_cons. apply IH. by apply exec_nonempty_sets.
Qed.

Lemma init_nonempty_sets : nonempty_sets (mgr init_state).
Proof. intros uid conns. cbn. by rewrite lookup_empty. Qed.

Lemma length_le_sum {A} (f : A → nat) (l : list A) :
  Forall (λ x, 1 ≤ f x) l → length l ≤ sum_list (f <$> l).
Proof. induction 1 as [|x l Hx _ IH]; cbn; lia. Qed.

Lemma users_le_count self :
  nonempty_sets self →
  length (get_connected_users self) ≤ get_connection_count self.
Proof.
  intros Hinv. unfold get_connected_users, get_connection_count.
  rewrite length_fmap. apply length_le_sum, Forall_forall.
  intros [uid conns] Hkv%elem_of_map_to_list. cbn.
  apply Hinv in Hkv. apply Nat.le_succ_l, Nat.neq_0_lt_0.
  intros Hz%size_empty_inv. apply Hkv. by apply leibniz_equiv.
Qed.

(** X10. After every sequence of calls on a fresh manager, whatever the world
    answers, [get_connected_users] lists each user once, and lists a user
    exactly when that user's set holds a connection; there are at least as
    many connections as users, and the count is zero exactly when no user is
    listed. *)
Theorem connected_users_are_those_with_connections (w : World)
    (ops : list op) :
  let self := mgr (exec_all w ops init_state) in
  NoDup (get_connected_users self)
  ∧ (∀ uid, uid ∈ get_connected_users self ↔ conn_set self uid ≠ ∅)
  ∧ length (get_connected_users self) ≤ get_connection_count self
  ∧ (get_connection_count self = 0 ↔ get_connected_users self = []).
Proof.
  intros self.
  assert (Hinv : nonempty_sets self)
    by apply exec_all_nonempty_sets, init_nonempty_sets.
  pose proof (users_le_count self Hinv) as Hle.
  split_and!.
  - apply NoDup_fst_map_to_list.
  - intros uid. rewrite elem_of_get_connected_users. unfold conn_set. split.
    + intros [conns Hlk]. rewrite Hlk. cbn. by eapply Hinv.
    + destruct (active_connections self !! uid); [by eauto | by intros []].
  - done.
  - split.
    + intros Hz. apply nil_length_inv. lia.
    + unfold get_connected_users, get_connection_count.
      intros Hnil%fmap_nil_inv. by rewrite Hnil.
Qed.

(** ** More on [disconnect], [send_personal_message] and [send_to_user] *)

(** X11. [disconnect(websocket, uid)] takes the connection out of the set of
    [uid] and drops its metadata entry, and that is all it does: the other
    members of the set stay, the sets of the other users and the metadata of
    the other connections are untouched, and the key [uid] is never left with
    an empty set. *)
Theorem disconnect_touches_only_its_target (self : ConnectionManager)
    (websocket : nat) (uid : string) :
  let self' := disconnect websocket uid self in
  conn_set self' uid = conn_set self uid ∖ {[websocket]}
  ∧ (∀ uid', uid' ≠ uid →
       active_connections self' !! uid' = active_connections self !! uid')
  ∧ connection_info self' !! websocket = None
  ∧ (∀ c, c ≠ websocket →
       connection_info self' !! c = connection_info self !! c)
  ∧ active_connections self' !! uid ≠ Some ∅.
Proof.
  intros self'. subst self'. split_and!.
  - by rewrite disconnect_conn_set, decide_True.
  - intros uid' Hne. by apply disconnect_active_ne.
  - by rewrite disconnect_info, lookup_delete_eq.
  - intros c Hne. by rewrite disconnect_info, lookup_delete_ne.
  - apply disconnect_no_empty_key.
Qed.

Lemma disconnect_touches_only_its_target_witness :
  active_connections (disconnect 1 "u1" (mgr three_clients)) !! "u2"
  = active_connections (mgr three_clients) !! "u2".
Proof.
  destruct (disconnect_touches_only_its_target (mgr three_clients) 1 "u1")
    as (_ & Hothers & _).
  by apply Hothers.
Defined.

(** X12. [send_personal_message] never raises: it makes one transmission, to
    the connection it is given, and when that send fails the failure is
    swallowed; the manager is not touched, so the dead connection stays
    registered. *)
Theorem send_personal_message_swallows (w : World) (st : State)
    (msg : list (string * json)) (websocket : nat) :
  let out := send_personal_message msg websocket w st in
  out.1 = Ok tt
  ∧ mgr out.2 = mgr st
  ∧ wire out.2
    = wire st ++ [Sent websocket msg (negb (send_raises w (clock st) websocket))].
Proof.
  unfold send_personal_message, try_except, send_text, ret.
  by destruct (send_raises w (clock st) websocket).
Qed.

Lemma send_to_user_total uid msg w st :
  send_to_user uid msg w st
  = let new := attempts w msg (clock st) (elements (conn_set (mgr st) uid)) in
    (Ok tt,
     {| mgr := prune uid (elements (failed_of new)) (mgr st);
        wire := wire st ++ new;
        clock := clock st + size (conn_set (mgr st) uid) |}).
Proof.
  destruct (active_connections (mgr st) !! uid) as [conns|] eqn:E.
  - rewrite (send_to_user_run _ _ _ _ _ E). unfold conn_set. by rewrite E.
  - rewrite send_to_user_offline by done. unfold conn_set. rewrite E.
    cbn [default]. rewrite elements_empty, size_empty. cbn [attempts].
    assert (Hnone : elements (failed_of []) = []) by apply elements_empty.
    rewrite Hnone, app_nil_r, Nat.add_0_r. by destruct st.
Qed.

(** X13. [send_to_user] returns normally in every state and whatever sends
    fail.  It changes nothing for the other users; it adds no connection to
    the set of the user it serves; and the only metadata entries it can drop
    are those of connections that were in that set. *)
Theorem send_to_user_touches_one_user (w : World) (st : State) (uid : string)
    (msg : list (string * json)) :
  let out := send_to_user uid msg w st in
  out.1 = Ok tt
  ∧ (∀ uid', uid' ≠ uid →
       active_connections (mgr out.2) !! uid'
       = active_connections (mgr st) !! uid')
  ∧ conn_set (mgr out.2) uid ⊆ conn_set (mgr st) uid
  ∧ (∀ c, c ∉ conn_set (mgr st) uid →
       connection_info (mgr out.2) !! c = connection_info (mgr st) !! c).
Proof.
  intros out. subst out. rewrite send_to_user_total. cbn [fst snd mgr].
  split_and!; [done | | apply prune_subseteq |].
  - intros uid' Hne. by apply prune_active_ne.
  - intros c Hnin. rewrite prune_info, decide_False; [done|].
    intros Hc%elem_of_elements. apply failed_of_subseteq in Hc. set_solver.
Qed.

Lemma send_to_user_touches_one_user_witness :
  active_connections (mgr (send_to_user "u1" [] deaf three_clients).2) !! "u2"
  = active_connections (mgr three_clients) !! "u2".
Proof.
  destruct (send_to_user_touches_one_user deaf three_clients "u1" [])
    as (_ & Hothers & _).
  by apply Hothers.
Defined.

(** X14. When every send of a call of [send_to_user] is delivered, the call
    leaves the manager exactly as it was. *)
Theorem send_to_user_all_delivered (w : World) (st : State) (uid : string)
    (msg : list (string * json)) (new : list transmission) :
  wire (send_to_user uid msg w st).2 = wire st ++ new →
  Forall (λ t, delivered t = true) new →
  mgr (send_to_user uid msg w st).2 = mgr st.
Proof.
  rewrite send_to_user_total. cbn [snd mgr wire].
  intros <-%app_inv_head Hall.
  assert (Hnone : failed_of
                    (attempts w msg (clock st) (elements (conn_set (mgr st) uid)))
                  = ∅).
  { apply leibniz_equiv. intros c. rewrite elem_of_failed_of. split; [|set_solver].
    intros (t & Ht & _ & Hd). rewrite Forall_forall in Hall.
    rewrite (Hall t Ht) in Hd. discriminate. }
  by rewrite Hnone, elements_empty.
Qed.

Lemma send_to_user_all_delivered_witness :
  mgr (send_to_user "u1" [("type", JStr "alert")] calm three_clients).2
  = mgr three_clients.
Proof.
  apply (send_to_user_all_delivered calm three_clients "u1"
           [("type", JStr "alert")]
           [Sent 2 [("type", JStr "alert")] true;
            Sent 1 [("type", JStr "alert")] true]).
  - vm_compute. reflexivity.
  - by repeat constructor.
Defined.

(** ** The notification helpers *)

Lemma notify_parent_alert_run parent_id child_id alert_type text data w st :
  notify_parent_alert parent_id child_id alert_type text data w st
  = send_to_user parent_id
      (alert_message child_id alert_type text data (utcnow_at w (clock st)))
      w (tick st).
Proof. done. Qed.

Lemma notify_device_status_run device status w st :
  notify_device_status device status w st
  = send_to_user device (device_status_message status (utcnow_at w (clock st)))
      w (tick st).
Proof. done. Qed.

Lemma broadcast_prayer_time_run prayer_times w st :
  broadcast_prayer_time prayer_times w st
  = broadcast (prayer_time_message prayer_times (utcnow_at w (clock st))) None
      w (tick st).
Proof. done. Qed.

(** X15. [notify_parent_alert] returns normally in every state.  It sends one
    message to each connection registered under the parent and to no other
    connection; the message has type "alert" and carries the alert type, the
    child, the text, the data (an empty dictionary when none is given) and the
    time read before sending.  When the parent has no connection nothing is
    sent and the manager is left as it was. *)
Theorem parent_alert_goes_to_parent_only (w : World) (st : State)
    (parent_id child_id alert_type text : string)
    (data : option (list (string * json))) :
  let msg := alert_message child_id alert_type text data
               (utcnow_at w (clock st)) in
  let out := notify_parent_alert parent_id child_id alert_type text data w st in
  out.1 = Ok tt
  ∧ (∃ new, wire out.2 = wire st ++ new
            ∧ to <$> new = elements (conn_set (mgr st) parent_id)
            ∧ Forall (λ t, payload t = msg) new)
  ∧ dict_get "type" msg = Some (JStr "alert")
  ∧ dict_get "alert_type" msg = Some (JStr alert_type)
  ∧ dict_get "child_id" msg = Some (JStr child_id)
  ∧ dict_get "message" msg = Some (JStr text)
  ∧ dict_get "data" msg = Some (JDict (default [] data))
  ∧ (active_connections (mgr st) !! parent_id = None →
       wire out.2 = wire st ∧ mgr out.2 = mgr st).
Proof.
  intros msg out. subst out. rewrite notify_parent_alert_run. fold msg.
  split_and!; try done.
  - by rewrite send_to_user_total.
  - rewrite send_to_user_total. cbn [snd wire mgr tick clock].
    eexists. split_and!; [done | apply attempts_to | apply attempts_payload].
  - intros Hoff. by rewrite send_to_user_offline.
Qed.

Lemma parent_alert_goes_to_parent_only_witness :
  wire (notify_parent_alert "u9" "c1" "bedtime" "Screen time exceeded" None
          calm three_clients).2
  = wire three_clients.
Proof.
  destruct (parent_alert_goes_to_parent_only calm three_clients "u9" "c1"
              "bedtime" "Screen time exceeded" None)
    as (_ & _ & _ & _ & _ & _ & _ & Hoff).
  apply Hoff. vm_compute. reflexivity.
Defined.

(** X16. [notify_device_status] looks its argument up among the user keys of
    [active_connections]; the device ids that [connect] records play no part.
    A connection registered through [connect] under a user with a device id
    that is no user key is therefore not reached by a status sent to that
    device: nothing is transmitted and the manager is unchanged. *)
Theorem device_status_is_keyed_by_user (w w' : World) (st : State)
    (websocket : nat) (uid device status : string) :
  accept_raises w (clock st) websocket = false →
  device ≠ uid →
  active_connections (mgr st) !! device = None →
  let st1 := (connect websocket uid (Some device) w st).2 in
  let out := notify_device_status device status w' st1 in
  device_id <$> connection_info (mgr st1) !! websocket = Some (Some device)
  ∧ websocket ∈ conn_set (mgr st1) uid
  ∧ out.1 = Ok tt
  ∧ wire out.2 = wire st1
  ∧ mgr out.2 = mgr st1.
Proof.
  intros Hacc Hne Hoff st1 out. subst out st1.
  rewrite notify_device_status_run, connect_run, Hacc. cbn [snd mgr].
  set (i := {| user_id := uid; device_id := Some device;
               connected_at := utcnow_at w (1 + clock st);
               client := default "unknown" (client_host w websocket) |}).
  assert (Hkey : active_connections (register websocket i (mgr st)) !! device
                 = None).
  { rewrite register_active. by rewrite lookup_insert_ne. }
  split_and!.
  - by rewrite register_info, lookup_insert_eq.
  - rewrite (register_conn_set websocket i), decide_True by done. set_solver.
  - by rewrite send_to_user_offline.
  - by rewrite send_to_user_offline.
  - by rewrite send_to_user_offline.
Qed.

Lemma device_status_is_keyed_by_user_witness :
  wire (notify_device_status "tv" "locked" calm
          (connect 9 "u1" (Some "tv") calm three_clients).2).2
  = wire (connect 9 "u1" (Some "tv") calm three_clients).2.
Proof.
  destruct (device_status_is_keyed_by_user calm calm three_clients 9 "u1" "tv"
              "locked" eq_refl) as (_ & _ & _ & Hwire & _);
    [discriminate | vm_compute; reflexivity | exact Hwire].
Defined.

Lemma filter_not_excluded_nil (kvs : list (string * gset nat)) :
  filter (λ kv, kv.1 ∉ []) kvs = kvs.
Proof.
  induction kvs as [|kv kvs IH]; [done|].
  rewrite filter_cons_True by apply not_elem_of_nil. by rewrite IH.
Qed.

Lemma broadcast_targets_all_length self :
  length (broadcast_targets [] self) = get_connection_count self.
Proof.
  unfold broadcast_targets, get_connection_count.
  rewrite filter_not_excluded_nil, length_join, <-list_fmap_compose. done.
Qed.

(** X17. [broadcast_prayer_time] returns normally and leaves the manager as it
    was; it excludes nobody: a connection is sent the "prayer_time" message,
    with the prayer times and the time read before sending, exactly when it is
    in some user's set, and the number of transmissions is
    [get_connection_count]. *)
Theorem prayer_time_reaches_everyone (w : World) (st : State)
    (prayer_times : list (string * json)) :
  let msg := prayer_time_message prayer_times (utcnow_at w (clock st)) in
  let out := broadcast_prayer_time prayer_times w st in
  out.1 = Ok tt
  ∧ mgr out.2 = mgr st
  ∧ dict_get "type" msg = Some (JStr "prayer_time")
  ∧ dict_get "prayer_times" msg = Some (JDict prayer_times)
  ∧ ∃ new, wire out.2 = wire st ++ new
           ∧ Forall (λ t, payload t = msg) new
           ∧ length new = get_connection_count (mgr st)
           ∧ ∀ c, c ∈ (to <$> new) ↔ registered (mgr st) c.
Proof.
  intros msg out. subst out. rewrite broadcast_prayer_time_run, broadcast_run.
  fold msg. cbn [fst snd mgr wire tick clock default].
  split_and!; try done. eexists. split_and!; [done | | |].
  - apply broadcast_attempts_payload.
  - rewrite <-(length_fmap to), broadcast_attempts_to.
    apply broadcast_targets_all_length.
  - intros c. rewrite broadcast_attempts_to.
    fold (broadcast_targets [] (mgr st)). rewrite elem_of_broadcast_targets.
    unfold registered, conn_set. split.
    + intros (uid & conns & Hlk & _ & Hc). exists uid. by rewrite Hlk.
    + intros [uid Hc].
      destruct (active_connections (mgr st) !! uid) as [conns|] eqn:E;
        [|set_solver].
      exists uid, conns. split_and!; [done | apply not_elem_of_nil | done].
Qed.

Lemma prune_count uid l self :
  NoDup l → (∀ c, c ∈ l → c ∈ conn_set self uid) →
  get_connection_count (prune uid l self) + length l
  = get_connection_count self.
Proof.
  revert self. induction l as [|d l IH]; intros self Hnd Hin; [cbn; lia|].
  apply NoDup_cons in Hnd as [Hd Hnd].
  cbn [prune foldl length]. fold (prune uid l (disconnect d uid self)).
  pose proof (disconnect_count d uid self) as Hstep.
  rewrite decide_True in Hstep by (apply Hin; by left).
  rewrite <-Hstep, Nat.add_succ_r, IH; [lia | done |].
  intros c Hc. rewrite disconnect_conn_set, decide_True by done.
  apply elem_of_difference. split; [apply Hin; by right|].
  intros ->%elem_of_singleton. by destruct Hd.
Qed.

(** X18. Each connection on which a send of [send_to_user] failed lowers
    [get_connection_count] by one, and nothing else changes the count. *)
Theorem send_to_user_count (w : World) (st : State) (uid : string)
    (msg : list (string * json)) :
  let out := send_to_user uid msg w st in
  ∃ new, wire out.2 = wire st ++ new
         ∧ get_connection_count (mgr out.2) + size (failed_of new)
           = get_connection_count (mgr st).
Proof.
  intros out. subst out. rewrite send_to_user_total. cbn [snd wire mgr].
  eexists. split; [done|]. apply prune_count.
  - apply NoDup_elements.
  - intros c Hc%elem_of_elements. apply failed_of_subseteq in Hc.
    set_solver.
Qed.
